(** * SafePointer<T>: a shallow embedding of [safeptr.hpp]

    The class owns zero or one [malloc]'ed region of [T] elements and keeps
    three fields: [ptr_], [allocated_] and [size_].  The embedding below
    follows the header method by method.

    ** Modelling choices

    - [size_t] is a 64-bit unsigned integer: a [Z] in [0, 2^64), with the
      wrap-around of [size * sizeof(T)] and of the subtractions of
      [set_values] written out ([to_size_t]).
    - Memory is a finite map from block names to lists of cells; a pointer
      is [nullptr] or a block with an element offset.  A cell is [None]
      while its value is indeterminate (fresh [malloc] storage).
    - The objects themselves live in a store indexed by their address
      ([this]), so that [this == &other] is a comparison of addresses and
      the two-object methods see their aliasing.
    - A method is a function from worlds to outcomes: it returns, it throws
      a C++ exception, or its behaviour is undefined (out-of-bounds access,
      [free] of something that is not a live region, ...).
    - [malloc], [calloc], [realloc] and [free] are the C library's.  What
      the allocator decides (to fail, or where to place the region) is read
      from a list of decisions carried by the world, so every standard
      behaviour of the allocator is one choice of that list.  The one
      implementation-defined case the class can reach, [realloc] of a live
      region to zero bytes, follows glibc: the region is freed and the
      result is null.
    - [clone] ends in [return new_sptr;], the return of a named local.
      The compiler may build that local in the storage of the returned
      value, and then the return copies nothing; or it initialises the
      returned value from the local, with the implicit copy constructor,
      and destroys the local.  Both are modelled ([return_mode]). *)

From stdpp Require Import gmap list strings.
From Stdlib Require Import ZArith Lia.

Local Open Scope Z_scope.

(** ** Machine integers *)

Definition size_modulus : Z := 2 ^ 64.

Definition to_size_t (z : Z) : Z := z mod size_modulus.

Definition is_size_t (z : Z) : Prop := 0 ≤ z < size_modulus.

(** ** Pointers *)

Definition block := positive.
Definition addr := positive.

Bind Scope positive_scope with block addr.

Inductive pointer : Type :=
| nullptr
| Ptr (b : block) (off : Z).

#[global] Instance pointer_eq_dec : EqDecision pointer.
Proof. solve_decision. Defined.

Definition is_null (p : pointer) : bool :=
  match p with nullptr => true | Ptr _ _ => false end.

(** [p - q] for two pointers: defined inside one array only. *)
Definition ptr_diff (p q : pointer) : option Z :=
  match p, q with
  | nullptr, nullptr => Some 0
  | Ptr b o, Ptr b' o' => if decide (b = b') then Some (o - o') else None
  | _, _ => None
  end.

(** [p + k] and [p + 1] as addresses, whether or not they can be
    dereferenced. *)
Definition ptr_plus (p : pointer) (k : Z) : pointer :=
  match p with nullptr => nullptr | Ptr b o => Ptr b (o + k) end.

Definition ptr_next (p : pointer) : pointer := ptr_plus p 1.

(** ** Exceptions *)

Inductive exception : Type :=
| invalid_argument (what : string)
| runtime_error (what : string).

(** The error kinds of the specification.  The header throws
    [std::invalid_argument] for the first and [std::runtime_error], told
    apart by its message, for the three others. *)
Inductive error_kind : Type :=
| InvalidArgument
| NotAllocated
| AllocationFailure
| ReallocationFailure
| OtherError.

Definition not_allocated_messages : list string :=
  [ "Cannot fill: memory is not allocated";
    "Cannot copy from an unallocated SafePointer";
    "Cannot set value: memory is not allocated";
    "Cannot set values: memory is not allocated";
    "Cannot get values: memory is not allocated" ].

Definition kind_of (e : exception) : error_kind :=
  match e with
  | invalid_argument _ => InvalidArgument
  | runtime_error msg =>
      if String.eqb msg "Memory allocation failed" then AllocationFailure
      else if String.eqb msg "Memory reallocation failed" then ReallocationFailure
      else if existsb (String.eqb msg) not_allocated_messages then NotAllocated
      else OtherError
  end.

(** ** The fields of the class *)

Record SafePointer : Type := mkSafePointer {
  ptr_ : pointer;
  allocated_ : bool;
  size_ : Z
}.

(** How [return new_sptr;] hands a named local to the caller.  The
    language lets the compiler build the local in the storage of the
    returned value ([Elided]).  Otherwise the local lives in a storage of
    its own, [local], the returned value is initialised from it, and the
    local is destroyed ([Copied]). *)
Inductive return_mode : Type :=
| Elided
| Copied (local : addr).

Declare Scope M_scope.

Section outcomes.

Context {T : Type}.

Definition cell : Type := option T.

(** ** Worlds and outcomes *)

Record world : Type := mkWorld {
  objects : gmap addr SafePointer;
  heap : gmap block (list cell);
  allocator : list (option block)
}.

Definition set_obj (this : addr) (o : SafePointer) (w : world) : world :=
  mkWorld (<[this := o]> (objects w)) (heap w) (allocator w).

Definition set_heap (h : gmap block (list cell)) (w : world) : world :=
  mkWorld (objects w) h (allocator w).

Inductive outcome (A : Type) : Type :=
| Returns (a : A) (w : world)
| Throws (e : exception) (w : world)
| Undefined.

#[global] Arguments Returns {A} a w.
#[global] Arguments Throws {A} e w.
#[global] Arguments Undefined {A}.

Definition M (A : Type) : Type := world → outcome A.

Definition ret {A} (a : A) : M A := λ w, Returns a w.

Definition bind {A B} (m : M A) (f : A → M B) : M B := λ w,
  match m w with
  | Returns a w' => f a w'
  | Throws e w' => Throws e w'
  | Undefined => Undefined
  end.

End outcomes.

Notation "x ← y ; z" := (bind y (λ x, z))
  (at level 20, y at level 100, z at level 200, only parsing) : M_scope.
Notation "x ;; z" := (bind x (λ _, z))
  (at level 100, z at level 200, only parsing, right associativity) : M_scope.

Section safeptr.

Context {T : Type}.

(** [sizeof(T)], in bytes, and the value of [T] whose bytes are all zero
    (what [calloc] leaves in the region). *)
Variable sizeof_T : Z.
Variable zero_T : T.

Local Open Scope M_scope.

Local Abbreviation cell := (@cell T).
Local Abbreviation world := (@world T).
Local Abbreviation M := (@M T).

Definition throw {A} (e : exception) : M A := λ w, Throws e w.

Definition undefined {A} : M A := λ _, Undefined.

Definition lift_option {A} (o : option A) : M A :=
  match o with Some a => ret a | None => undefined end.

(** Stack unwinding: when [body] throws, [cleanup] (the destructors of the
    locals) runs and the exception travels on.  A destructor that throws
    meanwhile ends the program; the methods say nothing of what follows. *)
Definition unwinding {A} (cleanup : M unit) (body : M A) : M A := λ w,
  match body w with
  | Throws e w' =>
      match cleanup w' with
      | Returns _ w'' => Throws e w''
      | Throws e' w'' => Undefined
      | Undefined => Undefined
      end
  | r => r
  end.

(** ** Field access through [this] *)

Definition read_obj (this : addr) : M SafePointer := λ w,
  match objects w !! this with
  | Some o => Returns o w
  | None => Undefined
  end.

Definition write_obj (this : addr) (f : SafePointer → SafePointer) : M unit := λ w,
  match objects w !! this with
  | Some o => Returns tt (set_obj this (f o) w)
  | None => Undefined
  end.

Definition get_ptr (this : addr) : M pointer := o ← read_obj this; ret (ptr_ o).
Definition get_allocated (this : addr) : M bool := o ← read_obj this; ret (allocated_ o).
Definition get_size (this : addr) : M Z := o ← read_obj this; ret (size_ o).

Definition set_ptr (this : addr) (p : pointer) : M unit :=
  write_obj this (λ o, mkSafePointer p (allocated_ o) (size_ o)).
Definition set_allocated (this : addr) (a : bool) : M unit :=
  write_obj this (λ o, mkSafePointer (ptr_ o) a (size_ o)).
Definition set_size (this : addr) (n : Z) : M unit :=
  write_obj this (λ o, mkSafePointer (ptr_ o) (allocated_ o) n).

(** ** Memory *)

Definition cells_of_bytes (bytes : Z) : nat := Z.to_nat (bytes / sizeof_T).

Definition cell_at (h : gmap block (list cell)) (p : pointer) : option cell :=
  match p with
  | nullptr => None
  | Ptr b o =>
      match h !! b with
      | Some cs => if decide (0 ≤ o) then cs !! Z.to_nat o else None
      | None => None
      end
  end.

(** [*p] *)
Definition load (p : pointer) : M cell := λ w,
  match cell_at (heap w) p with
  | Some c => Returns c w
  | None => Undefined
  end.

(** [*p = c] *)
Definition store (p : pointer) (c : cell) : M unit := λ w,
  match p with
  | nullptr => Undefined
  | Ptr b o =>
      match heap w !! b with
      | Some cs =>
          if decide (0 ≤ o ∧ (Z.to_nat o < length cs)%nat)
          then Returns tt (set_heap (<[b := <[Z.to_nat o := c]> cs]> (heap w)) w)
          else Undefined
      | None => Undefined
      end
  end.

(** [p + k]: a pointer into the array of [p] or one past its end;
    [nullptr + 0] is [nullptr]. *)
Definition ptr_add (p : pointer) (k : Z) : M pointer := λ w,
  match p with
  | nullptr => if decide (k = 0) then Returns nullptr w else Undefined
  | Ptr b o =>
      match heap w !! b with
      | Some cs =>
          if decide (0 ≤ o + k ≤ Z.of_nat (length cs))
          then Returns (Ptr b (o + k)) w else Undefined
      | None => Undefined
      end
  end.

(** The allocator's next decision: [None] when it refuses, [Some b] when it
    would place the region at block [b]. *)
Definition next_decision (w : world) : option block * world :=
  match allocator w with
  | [] => (None, w)
  | d :: ds => (d, mkWorld (objects w) (heap w) ds)
  end.

Definition place (b : block) (cs : list cell) (w : world) : world :=
  set_heap (<[b := cs]> (heap w)) w.

(** [malloc(bytes)]: a null pointer, or a fresh region of indeterminate
    cells. *)
Definition malloc (bytes : Z) : M pointer := λ w,
  match next_decision w with
  | (Some b, w') =>
      match heap w' !! b with
      | None => Returns (Ptr b 0) (place b (replicate (cells_of_bytes bytes) None) w')
      | Some _ => Returns nullptr w'
      end
  | (None, w') => Returns nullptr w'
  end.

(** [calloc(num, size)]: as [malloc(num * size)] with every byte zero; a
    null pointer when the product does not fit in [size_t]. *)
Definition calloc (num size : Z) : M pointer := λ w,
  match next_decision w with
  | (Some b, w') =>
      match heap w' !! b with
      | None =>
          if decide (num * size < size_modulus)
          then Returns (Ptr b 0)
                 (place b (replicate (cells_of_bytes (num * size)) (Some zero_T)) w')
          else Returns nullptr w'
      | Some _ => Returns nullptr w'
      end
  | (None, w') => Returns nullptr w'
  end.

(** A region cut or extended to [n] cells; new cells are indeterminate. *)
Definition resize_cells (n : nat) (cs : list cell) : list cell :=
  take n cs ++ replicate (n - length cs) None.

(** [realloc(p, bytes)].  With a null [p] it is [malloc].  Otherwise [p]
    must be the start of a live region.  For a byte count that is not
    zero the region is resized in place or moved to a fresh block, its
    common prefix kept, and on failure the old region is left as it was.
    A request for zero bytes on a live region is implementation-defined
    in the C library the header includes (C17 7.22.3.5); it is taken here
    as glibc serves it: the region is freed and the call returns a null
    pointer. *)
Definition realloc (p : pointer) (bytes : Z) : M pointer :=
  match p with
  | nullptr => malloc bytes
  | Ptr b o => λ w,
      match heap w !! b with
      | Some cs =>
          if decide (o ≠ 0) then Undefined
          else if decide (bytes = 0) then
            Returns nullptr (set_heap (delete b (heap w)) w)
          else
            match next_decision w with
            | (Some b', w') =>
                if decide (b' = b) then
                  Returns (Ptr b 0) (place b (resize_cells (cells_of_bytes bytes) cs) w')
                else
                  match heap w' !! b' with
                  | None =>
                      Returns (Ptr b' 0)
                        (place b' (resize_cells (cells_of_bytes bytes) cs)
                           (set_heap (delete b (heap w')) w'))
                  | Some _ => Returns nullptr w'
                  end
            | (None, w') => Returns nullptr w'
            end
      | None => Undefined
      end
  end.

(** [free(p)]: nothing for a null pointer; otherwise [p] must be the start
    of a live region. *)
Definition free (p : pointer) : M unit := λ w,
  match p with
  | nullptr => Returns tt w
  | Ptr b o =>
      match heap w !! b with
      | Some _ =>
          if decide (o = 0)
          then Returns tt (set_heap (delete b (heap w)) w)
          else Undefined
      | None => Undefined
      end
  end.

(** ** Standard algorithms on raw pointers *)

(** Is [p] one of the positions [first, first+1, ..., last-1]? *)
Definition in_span (first last p : pointer) : bool :=
  match first, last, p with
  | Ptr b o1, Ptr _ o2, Ptr b' o => bool_decide (b = b' ∧ o1 ≤ o < o2)
  | _, _, _ => false
  end.

(** [while (first != last) *d_first++ = *first++;], [n] steps. *)
Fixpoint copy_loop (n : nat) (first d_first : pointer) : M unit :=
  match n with
  | O => ret tt
  | S k =>
      c ← load first;
      store d_first c;;
      copy_loop k (ptr_next first) (ptr_next d_first)
  end.

(** [std::copy(first, last, d_first)]: [last] must be reachable from
    [first], and [d_first] must not lie in [[first, last)]. *)
Definition std_copy (first last d_first : pointer) : M unit :=
  n ← lift_option (ptr_diff last first);
  if decide (n < 0) then undefined
  else if in_span first last d_first then undefined
  else copy_loop (Z.to_nat n) first d_first.

(** [while (first != last) *first++ = value;], [n] steps. *)
Fixpoint fill_loop (n : nat) (first : pointer) (value : T) : M unit :=
  match n with
  | O => ret tt
  | S k => store first (Some value);; fill_loop k (ptr_next first) value
  end.

(** [std::fill(first, last, value)] *)
Definition std_fill (first last : pointer) (value : T) : M unit :=
  n ← lift_option (ptr_diff last first);
  if decide (n < 0) then undefined
  else fill_loop (Z.to_nat n) first value.

(** ** The methods of [SafePointer<T>] *)

(** [allocate] and [reallocate] call each other.  Their bodies are written
    over the method they call, and tied together by a bound on the depth
    of the calls, which [allocate_unfold] and [reallocate_unfold] show is
    never reached. *)
Definition allocate_body (reallocate : Z → addr → M unit)
    (size : Z) (this : addr) : M unit :=
  if decide (size = 0) then
    throw (invalid_argument "Cannot allocate 0 elements")
  else
    a ← get_allocated this;
    if a then reallocate size this
    else
      p ← malloc (to_size_t (size * sizeof_T));
      set_ptr this p;;
      if is_null p then throw (runtime_error "Memory allocation failed")
      else
        set_size this size;;
        set_allocated this true.

Definition reallocate_body (allocate : Z → addr → M unit)
    (size : Z) (this : addr) : M unit :=
  if decide (size = 0) then
    throw (invalid_argument "Cannot reallocate to 0 elements")
  else
    a ← get_allocated this;
    if negb a then allocate size this
    else
      p ← get_ptr this;
      new_ptr ← realloc p (to_size_t (size * sizeof_T));
      if is_null new_ptr then throw (runtime_error "Memory reallocation failed")
      else
        set_size this size;;
        set_ptr this new_ptr.

Fixpoint allocate_depth (depth : nat) (size : Z) (this : addr) : M unit :=
  match depth with
  | O => undefined
  | S d => allocate_body (reallocate_depth d) size this
  end
with reallocate_depth (depth : nat) (size : Z) (this : addr) : M unit :=
  match depth with
  | O => undefined
  | S d => reallocate_body (allocate_depth d) size this
  end.

Definition allocate : Z → addr → M unit := allocate_depth 3.
Definition reallocate : Z → addr → M unit := reallocate_depth 3.

Definition deallocate (this : addr) : M unit :=
  a ← get_allocated this;
  if a then
    p ← get_ptr this;
    free p;;
    set_ptr this nullptr;;
    set_allocated this false;;
    set_size this 0
  else ret tt.

Definition callocate (num size : Z) (this : addr) : M unit :=
  if decide (num = 0 ∨ size = 0) then
    throw (invalid_argument "Cannot allocate 0 elements or size")
  else
    a ← get_allocated this;
    (if a then deallocate this else ret tt);;
    p ← calloc num size;
    set_ptr this p;;
    if is_null p then throw (runtime_error "Memory allocation failed")
    else
      set_size this num;;
      set_allocated this true.

(** Constructors and destructor.  The storage of the object exists before
    its constructor runs and holds whatever it held: the default member
    initializers set [ptr_] and [allocated_], and [size_] has none. *)
Definition SafePointer_default (this : addr) : M unit :=
  set_ptr this nullptr;;
  set_allocated this false.

Definition SafePointer_sized (size : Z) (this : addr) : M unit :=
  SafePointer_default this;;
  allocate size this.

Definition SafePointer_destroy (this : addr) : M unit := deallocate this.

Definition is_allocated (this : addr) : M bool := get_allocated this.
Definition get (this : addr) : M pointer := get_ptr this.
Definition size (this : addr) : M Z := get_size this.
Definition is_empty (this : addr) : M bool :=
  a ← get_allocated this;
  n ← get_size this;
  ret (a && bool_decide (n = 0)).

Definition clear (doDeallocate : bool) (this : addr) : M unit :=
  if doDeallocate then deallocate this
  else
    set_ptr this nullptr;;
    set_size this 0.

Definition resize (size : Z) (this : addr) : M unit :=
  n ← get_size this;
  if decide (size = n) then ret tt
  else if decide (size = 0) then deallocate this
  else reallocate size this.

Definition begin (this : addr) : M pointer := get_ptr this.
Definition end_ (this : addr) : M pointer :=
  p ← get_ptr this;
  n ← get_size this;
  ptr_add p n.

Definition fill_range (first last : pointer) (value : T) (this : addr) : M unit :=
  a ← get_allocated this;
  p ← get_ptr this;
  if negb a || is_null p then
    throw (runtime_error "Cannot fill: memory is not allocated")
  else std_fill first last value.

Definition fill (value : T) (this : addr) : M unit :=
  b ← begin this;
  e ← end_ this;
  fill_range b e value this.

(** [std::swap(x, y)] on one field: [tmp = x; x = y; y = tmp]. *)
Definition swap_field {A} (rd : addr → M A) (wr : addr → A → M unit)
    (this other : addr) : M unit :=
  tmp ← rd this;
  y ← rd other;
  wr this y;;
  wr other tmp.

Definition swap (other this : addr) : M unit :=
  swap_field get_ptr set_ptr this other;;
  swap_field get_allocated set_allocated this other;;
  swap_field get_size set_size this other.

(** The implicit copy constructor [SafePointer(const SafePointer&)]: the
    class declares a destructor and [operator=] and no constructor from
    another [SafePointer], so a [SafePointer] initialised from [other]
    takes its three fields, one by one. *)
Definition SafePointer_copy (other this : addr) : M unit :=
  p ← get_ptr other;
  set_ptr this p;;
  a ← get_allocated other;
  set_allocated this a;;
  n ← get_size other;
  set_size this n.

(** [clone] returns its local [new_sptr] by value into the storage [ret],
    a storage other than [*this].  With the copy elided the local is
    built in [ret].  Otherwise it is built in [local], [ret] is
    copy-constructed from it by [return new_sptr;], and it is destroyed
    as the function ends.  When [allocate] throws, the local is
    destroyed by the unwinding. *)
Definition clone (mode : return_mode) (ret this : addr) : M unit :=
  match mode with
  | Elided =>
      if decide (ret = this) then undefined
      else
        SafePointer_default ret;;
        unwinding (SafePointer_destroy ret)
          (n ← get_size this;
           allocate n ret;;
           p ← get_ptr this;
           e ← ptr_add p n;
           q ← get_ptr ret;
           std_copy p e q)
  | Copied local =>
      if decide (ret = this ∨ local = this ∨ local = ret) then undefined
      else
        SafePointer_default local;;
        unwinding (SafePointer_destroy local)
          (n ← get_size this;
           allocate n local;;
           p ← get_ptr this;
           e ← ptr_add p n;
           q ← get_ptr local;
           std_copy p e q;;
           SafePointer_copy local ret);;
        SafePointer_destroy local
  end.

Definition compare (other this : addr) : M bool :=
  p ← get_ptr this;
  q ← get_ptr other;
  ret (bool_decide (p = q)).

Definition set (ptr : pointer) (this : addr) : M unit :=
  a ← get_allocated this;
  (if a then deallocate this else ret tt);;
  set_ptr this ptr;;
  p ← get_ptr this;
  set_allocated this (negb (is_null p)).

Definition copy (other : addr) (size : Z) (this : addr) : M unit :=
  oa ← is_allocated other;
  if negb oa then
    throw (runtime_error "Cannot copy from an unallocated SafePointer")
  else
    allocate size this;;
    op ← get_ptr other;
    oe ← ptr_add op size;
    p ← get_ptr this;
    std_copy op oe p.

Definition move (other this : addr) : M unit :=
  if decide (this ≠ other) then
    deallocate this;;
    op ← get_ptr other;
    set_ptr this op;;
    oa ← get_allocated other;
    set_allocated this oa;;
    set_ptr other nullptr;;
    set_allocated other false;;
    set_size other 0
  else ret tt.

Definition set_value (value : T) (idx : Z) (this : addr) : M unit :=
  a ← get_allocated this;
  p ← get_ptr this;
  if negb a || is_null p then
    throw (runtime_error "Cannot set value: memory is not allocated")
  else store (ptr_plus p idx) (Some value).

Definition set_values (src_begin src_end dst_begin : pointer) (this : addr) : M unit :=
  a ← get_allocated this;
  p ← get_ptr this;
  if negb a || is_null p then
    throw (runtime_error "Cannot set values: memory is not allocated")
  else if is_null src_begin || is_null src_end || is_null dst_begin then
    throw (invalid_argument "Source and destination pointers cannot be null")
  else
    d_src ← lift_option (ptr_diff src_end src_begin);
    let src_count := to_size_t d_src in
    d_dst ← lift_option (ptr_diff dst_begin p);
    n ← get_size this;
    let dst_count := to_size_t (n - to_size_t d_dst) in
    if decide (src_count > dst_count) then
      throw (invalid_argument "Source range exceeds destination space")
    else std_copy src_begin src_end dst_begin.

Definition set_values2 (src_begin src_end : pointer) (this : addr) : M unit :=
  b ← begin this;
  set_values src_begin src_end b this.

Definition get_values (src_begin src_end dst_begin : pointer) (this : addr) : M unit :=
  a ← get_allocated this;
  p ← get_ptr this;
  if negb a || is_null p then
    throw (runtime_error "Cannot get values: memory is not allocated")
  else if is_null src_begin || is_null src_end || is_null dst_begin then
    throw (invalid_argument "Source and destination pointers cannot be null")
  else
    d_src ← lift_option (ptr_diff src_end src_begin);
    let count := to_size_t d_src in
    std_copy src_begin src_end dst_begin.

Definition get_values1 (dst_begin : pointer) (this : addr) : M unit :=
  b ← begin this;
  e ← end_ this;
  get_values b e dst_begin this.

(** [operator=] *)
Definition assign (other this : addr) : M unit :=
  if decide (this = other) then ret tt
  else
    deallocate this;;
    n ← get_size other;
    allocate n this;;
    op ← get_ptr other;
    oe ← ptr_add op n;
    p ← get_ptr this;
    std_copy op oe p.

(** ** Observations used in the statements *)

(** The fields of a buffer that holds nothing. *)
Definition empty_fields : SafePointer := mkSafePointer nullptr false 0.

(** [p] is something [free] accepts: null, or the start of a live region. *)
Definition can_free (w : world) (p : pointer) : bool :=
  match p with
  | nullptr => true
  | Ptr b off => bool_decide (off = 0) && bool_decide (is_Some (heap w !! b))
  end.

(** The world once the region at [p] has been returned to the allocator. *)
Definition released (p : pointer) (w : world) : world :=
  match p with
  | nullptr => w
  | Ptr b _ => set_heap (delete b (heap w)) w
  end.

(** [get()[i]] for a buffer with fields [o]: the cell, when there is one. *)
Definition elem (w : world) (o : SafePointer) (i : Z) : option cell :=
  cell_at (heap w) (ptr_plus (ptr_ o) i).

(** The allocator's decision list once the next decision is taken. *)
Definition decided (w : world) : world := snd (next_decision w).

(** ** The invariant on the fields *)

(** A buffer that is not marked allocated has a null pointer and a count
    of 0. *)
Definition consistent (o : SafePointer) : Prop :=
  allocated_ o = false → ptr_ o = nullptr ∧ size_ o = 0.

Definition all_consistent (w : world) : Prop :=
  ∀ a o, objects w !! a = Some o → consistent o.

(** A property of the world an outcome leaves, whether the call returned
    or threw. *)
Definition leaves {A} (I : world → Prop) (r : outcome A) : Prop :=
  match r with
  | Returns _ w' => I w'
  | Throws _ w' => I w'
  | Undefined => True
  end.

(** A computation that never throws and leaves the objects as they are:
    reads of fields, and everything that works on the heap only. *)
Definition keeps_objects {A} (m : M A) : Prop :=
  ∀ w, match m w with
       | Returns _ w' => objects w' = objects w
       | Throws _ _ => False
       | Undefined => True
       end.

(** The calls a client can make on an object that exists. *)
Inductive method : Type :=
| Allocate (size : Z)
| Callocate (num size : Z)
| Reallocate (size : Z)
| Deallocate
| IsAllocated
| Get
| Size
| IsEmpty
| Clear (doDeallocate : bool)
| Resize (size : Z)
| FillRange (first last : pointer) (value : T)
| Fill (value : T)
| Swap (other : addr)
| Compare (other : addr)
| Set_ (ptr : pointer)
| Copy (other : addr) (size : Z)
| Move (other : addr)
| Begin
| End_
| SetValue (value : T) (idx : Z)
| SetValues (src_begin src_end dst_begin : pointer)
| SetValues2 (src_begin src_end : pointer)
| GetValues (src_begin src_end dst_begin : pointer)
| GetValues1 (dst_begin : pointer)
| Assign (other : addr).

Definition discard {A} (m : M A) : M unit := m;; ret tt.

Definition invoke (c : method) (this : addr) : M unit :=
  match c with
  | Allocate size => allocate size this
  | Callocate num size => callocate num size this
  | Reallocate size => reallocate size this
  | Deallocate => deallocate this
  | IsAllocated => discard (is_allocated this)
  | Get => discard (get this)
  | Size => discard (size this)
  | IsEmpty => discard (is_empty this)
  | Clear doDeallocate => clear doDeallocate this
  | Resize size => resize size this
  | FillRange first last value => fill_range first last value this
  | Fill value => fill value this
  | Swap other => swap other this
  | Compare other => discard (compare other this)
  | Set_ ptr => set ptr this
  | Copy other size => copy other size this
  | Move other => move other this
  | Begin => discard (begin this)
  | End_ => discard (end_ this)
  | SetValue value idx => set_value value idx this
  | SetValues src_begin src_end dst_begin =>
      set_values src_begin src_end dst_begin this
  | SetValues2 src_begin src_end => set_values2 src_begin src_end this
  | GetValues src_begin src_end dst_begin =>
      get_values src_begin src_end dst_begin this
  | GetValues1 dst_begin => get_values1 dst_begin this
  | Assign other => assign other this
  end.

(** The other object a call names, when it names one. *)
Definition other_of (c : method) : option addr :=
  match c with
  | Swap other | Compare other | Copy other _ | Move other | Assign other =>
      Some other
  | _ => None
  end.

End safeptr.

#[global] Arguments allocate : simpl never.
#[global] Arguments reallocate : simpl never.

(** * A concrete instance: [SafePointer<int>]

    The scenarios of [test.cpp], on a machine where [sizeof(int)] is 4.
    Two storages for objects, at addresses 1 and 2, hold stale bits before
    any constructor runs; the allocator will grant blocks 10, 11 and 12
    and then refuse. *)

Local Open Scope M_scope.

Definition sizeof_int : Z := 4.

Definition stale : SafePointer := mkSafePointer (Ptr 77 3) true 12345.

Definition storage : @world Z :=
  mkWorld (<[1%positive := stale]> (<[2%positive := stale]> ∅)) ∅
    [Some 10%positive; Some 11%positive; Some 12%positive; None].

(** The world a call leaves behind. *)
Definition after {T A} (m : @M T A) (w : @world T) : @world T :=
  match m w with
  | Returns _ w' => w'
  | Throws _ w' => w'
  | Undefined => w
  end.

(** [SafePointer<int> sptr1; sptr1.allocate(5);] then
    [sptr1.set_value(i + 1, i)] for every index. *)
Definition one_buffer : @world Z :=
  after (SafePointer_default 1;;
         allocate sizeof_int 5 1;;
         set_value 1 0 1;; set_value 2 1 1;; set_value 3 2 1;;
         set_value 4 3 1;; set_value 5 4 1) storage.

(** Then [SafePointer<int> sptr2; sptr2.allocate(3); sptr2.fill(9);]. *)
Definition two_buffers : @world Z :=
  after (SafePointer_default 2;;
         allocate sizeof_int 3 2;;
         fill 9 2) one_buffer.

(** [sptr1.clear();] on the first world. *)
Definition cleared : @world Z := after (clear false 1) one_buffer.

(** ** The test functions of [test.cpp] *)

(** [assert(b)] *)
Definition assert {T} (b : bool) : @M T unit :=
  if b then ret tt else throw (runtime_error "assertion failed").

(** [sptr.get()[i]], a value that must be determinate to be compared. *)
Definition get_at {T} (this : addr) (i : Z) : @M T T :=
  p ← get this;
  c ← load (ptr_plus p i);
  lift_option c.

(** [for (size_t i = from; i < from + n; ++i) body(i)] *)
Fixpoint for_loop {T} (n : nat) (from : Z) (body : Z → @M T unit) : @M T unit :=
  match n with
  | O => ret tt
  | S k => body from;; for_loop k (from + 1) body
  end.

(** [for (size_t i = 0; i < this.size(); ++i) body(i)], for a body that
    leaves the size alone. *)
Definition for_each_index {T} (this : addr) (body : Z → @M T unit) : @M T unit :=
  n ← size this;
  for_loop (Z.to_nat n) 0 body.

Definition is_nullptr (p : pointer) : bool := bool_decide (p = nullptr).

Definition test_allocate_and_deallocate : @M Z unit :=
  let sptr : addr := 1%positive in
  SafePointer_default sptr;;
  allocate sizeof_int 5 sptr;;
  a ← is_allocated sptr; assert a;;
  n ← size sptr; assert (bool_decide (n = 5));;
  p ← get sptr; assert (negb (is_nullptr p));;
  deallocate sptr;;
  a ← is_allocated sptr; assert (negb a);;
  n ← size sptr; assert (bool_decide (n = 0));;
  p ← get sptr; assert (is_nullptr p);;
  SafePointer_destroy sptr.

Definition test_resize : @M Z unit :=
  let sptr : addr := 1%positive in
  SafePointer_default sptr;;
  allocate sizeof_int 5 sptr;;
  resize sizeof_int 10 sptr;;
  n ← size sptr; assert (bool_decide (n = 10));;
  resize sizeof_int 3 sptr;;
  n ← size sptr; assert (bool_decide (n = 3));;
  resize sizeof_int 0 sptr;;
  a ← is_allocated sptr; assert (negb a);;
  n ← size sptr; assert (bool_decide (n = 0));;
  SafePointer_destroy sptr.

Definition test_fill : @M Z unit :=
  let sptr : addr := 1%positive in
  SafePointer_default sptr;;
  allocate sizeof_int 5 sptr;;
  fill 42 sptr;;
  for_each_index sptr (λ i, v ← get_at sptr i; assert (bool_decide (v = 42)));;
  SafePointer_destroy sptr.

Definition test_clone (mode : return_mode) : @M Z unit :=
  let sptr : addr := 1%positive in
  let sptr_clone : addr := 2%positive in
  SafePointer_default sptr;;
  allocate sizeof_int 5 sptr;;
  for_each_index sptr (λ i, set_value (i + 1) i sptr);;
  clone sizeof_int mode sptr_clone sptr;;
  for_each_index sptr
    (λ i, v ← get_at sptr_clone i; assert (bool_decide (v = i + 1)));;
  SafePointer_destroy sptr_clone;;
  SafePointer_destroy sptr.

Definition test_move : @M Z unit :=
  let sptr1 : addr := 1%positive in
  let sptr2 : addr := 2%positive in
  SafePointer_default sptr1;;
  allocate sizeof_int 5 sptr1;;
  for_each_index sptr1 (λ i, set_value (i + 1) i sptr1);;
  SafePointer_default sptr2;;
  move sptr1 sptr2;;
  a ← is_allocated sptr1; assert (negb a);;
  n ← size sptr1; assert (bool_decide (n = 0));;
  p ← get sptr1; assert (is_nullptr p);;
  for_each_index sptr2
    (λ i, v ← get_at sptr2 i; assert (bool_decide (v = i + 1)));;
  SafePointer_destroy sptr2;;
  SafePointer_destroy sptr1.

Definition test_copy : @M Z unit :=
  let sptr1 : addr := 1%positive in
  let sptr2 : addr := 2%positive in
  SafePointer_default sptr1;;
  allocate sizeof_int 5 sptr1;;
  for_each_index sptr1 (λ i, set_value (i + 1) i sptr1);;
  SafePointer_default sptr2;;
  n ← size sptr1; copy sizeof_int sptr1 n sptr2;;
  for_each_index sptr1
    (λ i, v ← get_at sptr2 i; assert (bool_decide (v = i + 1)));;
  SafePointer_destroy sptr2;;
  SafePointer_destroy sptr1.

Definition test_swap : @M Z unit :=
  let sptr1 : addr := 1%positive in
  let sptr2 : addr := 2%positive in
  SafePointer_default sptr1;;
  SafePointer_default sptr2;;
  allocate sizeof_int 5 sptr1;;
  allocate sizeof_int 3 sptr2;;
  fill 1 sptr1;;
  fill 2 sptr2;;
  swap sptr2 sptr1;;
  for_each_index sptr1 (λ i, v ← get_at sptr1 i; assert (bool_decide (v = 2)));;
  for_each_index sptr2 (λ i, v ← get_at sptr2 i; assert (bool_decide (v = 1)));;
  SafePointer_destroy sptr2;;
  SafePointer_destroy sptr1.

Definition test_clear : @M Z unit :=
  let sptr : addr := 1%positive in
  (SafePointer_default sptr;;
   allocate sizeof_int 5 sptr;;
   clear false sptr;;
   a ← is_allocated sptr; assert a;;
   n ← size sptr; assert (bool_decide (n = 0));;
   p ← get sptr; assert (is_nullptr p);;
   SafePointer_destroy sptr);;
  (SafePointer_default sptr;;
   allocate sizeof_int 5 sptr;;
   clear true sptr;;
   a ← is_allocated sptr; assert (negb a);;
   n ← size sptr; assert (bool_decide (n = 0));;
   p ← get sptr; assert (is_nullptr p);;
   SafePointer_destroy sptr).

(** [unit()], without its message to [std::cout]. *)
Definition unit_ (mode : return_mode) : @M Z unit :=
  test_allocate_and_deallocate;;
  test_resize;;
  test_fill;;
  test_clone mode;;
  test_move;;
  test_copy;;
  test_swap;;
  test_clear.

(** A machine for the tests: storages whose bits are all zero, and an
    allocator that grants a new block at every request. *)
Definition zeroed : SafePointer := mkSafePointer nullptr false 0.

Definition test_machine : @world Z :=
  mkWorld (<[1%positive := zeroed]> (<[2%positive := zeroed]> ∅)) ∅
    (map (λ n, Some (Pos.of_nat n)) (seq 10 20)).

(** The same machine with stale bits in the two storages. *)
Definition stale_machine : @world Z :=
  mkWorld (objects storage) ∅ (allocator test_machine).

(** The machine of the tests with any bits in the two storages. *)
Definition machine_with (raw1 raw2 : SafePointer) : @world Z :=
  mkWorld (<[1%positive := raw1]> (<[2%positive := raw2]> ∅)) ∅
    (allocator test_machine).

(** [sptr2.clear();] on the world of the two buffers. *)
Definition detached : @world Z := after (clear false 2) two_buffers.

(** [one_buffer] with a third storage, for the local of [clone]. *)
Definition with_local : @world Z := set_obj 3%positive stale one_buffer.

(** [two_buffers] with an array of four [int] of the caller's in block 20,
    which the first buffer then adopts: [sptr1.set(p)]. *)
Definition adopted : @world Z :=
  after (set (Ptr 20 0) 1)
    (place 20%positive [Some 7; Some 8; Some 9; Some 10] two_buffers).

(** The second buffer of [two_buffers]: three elements in block 11. *)
Definition three : SafePointer := mkSafePointer (Ptr 11 0) true 3.

(** The first buffer of [one_buffer]: five elements in block 10. *)
Definition five : SafePointer := mkSafePointer (Ptr 10 0) true 5.

(** [one_buffer] with an allocator that has nothing left to give. *)
Definition out_of_memory : @world Z :=
  mkWorld (objects one_buffer) (heap one_buffer) [].

(** A count whose size in bytes, [n * 4], wraps around to 4. *)
Definition huge : Z := 2 ^ 62 + 1.

(** * Reasoning about runs *)

Section runs.

Context {T : Type}.

Local Open Scope M_scope.

Implicit Types (w : @world T) (this other : addr) (o : SafePointer) (p : pointer).

(** ** Sequencing *)

Lemma bind_Returns {A B} (m : M A) (f : A → M B) w a w' :
  m w = Returns a w' → bind m f w = f a w'.
Proof. unfold bind. by intros ->. Qed.

Lemma bind_ret {A B} (a : A) (f : A → M B) w : bind (ret a) f w = f a w.
Proof. done. Qed.

Lemma bind_assoc {A B C} (m : M A) (f : A → M B) (g : B → M C) w :
  bind (bind m f) g w = bind m (λ a, bind (f a) g) w.
Proof. unfold bind. by destruct (m w). Qed.

Lemma bind_Throws {A B} (m : M A) (f : A → M B) w e w' :
  m w = Throws e w' → bind m f w = Throws e w'.
Proof. unfold bind. by intros ->. Qed.

Lemma bind_Undefined {A B} (m : M A) (f : A → M B) w :
  m w = Undefined → bind m f w = Undefined.
Proof. unfold bind. by intros ->. Qed.

Lemma bind_inv_Returns {A B} (m : M A) (f : A → M B) w b w'' :
  bind m f w = Returns b w'' →
  ∃ a w', m w = Returns a w' ∧ f a w' = Returns b w''.
Proof. unfold bind. destruct (m w) as [a w'| |]; [eauto | done | done]. Qed.

(** ** The object store *)

Lemma lookup_set_obj_eq this o w : objects (set_obj this o w) !! this = Some o.
Proof. apply lookup_insert_eq. Qed.

Lemma lookup_set_obj_ne this other o w :
  this ≠ other → objects (set_obj this o w) !! other = objects w !! other.
Proof. intros. by apply lookup_insert_ne. Qed.

Lemma set_obj_set_obj this o o' w :
  set_obj this o (set_obj this o' w) = set_obj this o w.
Proof. unfold set_obj. simpl. by rewrite insert_insert_eq. Qed.

Lemma objects_set_heap (h : gmap block (list (option T))) w :
  objects (set_heap h w) = objects w.
Proof. done. Qed.

Lemma read_obj_run this w o :
  objects w !! this = Some o → read_obj this w = Returns o w.
Proof. unfold read_obj. by intros ->. Qed.

Lemma get_ptr_run this w o :
  objects w !! this = Some o → get_ptr this w = Returns (ptr_ o) w.
Proof. intros H. unfold get_ptr. by rewrite (bind_Returns _ _ _ _ _ (read_obj_run _ _ _ H)). Qed.

Lemma get_allocated_run this w o :
  objects w !! this = Some o → get_allocated this w = Returns (allocated_ o) w.
Proof. intros H. unfold get_allocated. by rewrite (bind_Returns _ _ _ _ _ (read_obj_run _ _ _ H)). Qed.

Lemma get_size_run this w o :
  objects w !! this = Some o → get_size this w = Returns (size_ o) w.
Proof. intros H. unfold get_size. by rewrite (bind_Returns _ _ _ _ _ (read_obj_run _ _ _ H)). Qed.

Lemma set_ptr_run this p w o :
  objects w !! this = Some o →
  set_ptr this p w = Returns tt (set_obj this (mkSafePointer p (allocated_ o) (size_ o)) w).
Proof. unfold set_ptr, write_obj. by intros ->. Qed.

Lemma set_allocated_run this a w o :
  objects w !! this = Some o →
  set_allocated this a w = Returns tt (set_obj this (mkSafePointer (ptr_ o) a (size_ o)) w).
Proof. unfold set_allocated, write_obj. by intros ->. Qed.

Lemma set_size_run this n w o :
  objects w !! this = Some o →
  set_size this n w = Returns tt (set_obj this (mkSafePointer (ptr_ o) (allocated_ o) n) w).
Proof. unfold set_size, write_obj. by intros ->. Qed.

End runs.

(** Finding the fields of an object in a world built by updates. *)
Ltac solve_lookup :=
  rewrite ?objects_set_heap;
  first
    [ eassumption
    | apply lookup_set_obj_eq
    | rewrite lookup_set_obj_ne by congruence; solve_lookup ].

(** One step of a run: the first action of a sequence is a field access. *)
Ltac field_step :=
  first
    [ erewrite (bind_Returns (get_ptr _)) by (eapply get_ptr_run; solve_lookup)
    | erewrite (bind_Returns (get_allocated _)) by (eapply get_allocated_run; solve_lookup)
    | erewrite (bind_Returns (get_size _)) by (eapply get_size_run; solve_lookup)
    | erewrite (bind_Returns (set_ptr _ _)) by (eapply set_ptr_run; solve_lookup)
    | erewrite (bind_Returns (set_allocated _ _)) by (eapply set_allocated_run; solve_lookup)
    | erewrite (bind_Returns (set_size _ _)) by (eapply set_size_run; solve_lookup)
    | erewrite get_ptr_run by solve_lookup
    | erewrite get_allocated_run by solve_lookup
    | erewrite get_size_run by solve_lookup
    | erewrite set_ptr_run by solve_lookup
    | erewrite set_allocated_run by solve_lookup
    | erewrite set_size_run by solve_lookup
    | rewrite bind_assoc
    | rewrite bind_ret ];
  cbn [ptr_ allocated_ size_];
  rewrite ?set_obj_set_obj.

Ltac field_steps := repeat field_step.

Section methods.

Context {T : Type} (sizeof_T : Z) (zero_T : T).

Local Open Scope M_scope.

Local Abbreviation world := (@world T).
Local Abbreviation M := (@M T).

Implicit Types (w : world) (this other : addr) (o : SafePointer) (p : pointer).

Lemma free_objects p w w' : free p w = Returns tt w' → objects w' = objects w.
Proof.
  unfold free. destruct p as [|b off]; [by intros [= <-]|].
  destruct (heap w !! b); [|done]. case_decide; [|done]. by intros [= <-].
Qed.

Lemma free_run p w : can_free w p = true → free p w = Returns tt (released p w).
Proof.
  unfold can_free, free, released. destruct p as [|b off]; [done|].
  intros [Hoff [cs Hcs]%bool_decide_eq_true]%andb_prop.
  apply bool_decide_eq_true in Hoff. rewrite Hcs. by rewrite decide_True.
Qed.

Lemma objects_released p w : objects (released p w) = objects w.
Proof. by destruct p. Qed.

Lemma deallocate_run this w o :
  objects w !! this = Some o →
  deallocate this w =
    if allocated_ o then
      match free (ptr_ o) w with
      | Returns _ w1 => Returns tt (set_obj this empty_fields w1)
      | Throws e w1 => Throws e w1
      | Undefined => Undefined
      end
    else Returns tt w.
Proof.
  intros Ho. unfold deallocate. field_steps.
  destruct (allocated_ o); [|done]. field_steps.
  unfold bind at 1. destruct (free (ptr_ o) w) as [[] w1| |] eqn:Hf; [|done..].
  apply free_objects in Hf as Hobj.
  assert (objects w1 !! this = Some o) by (by rewrite Hobj).
  field_steps. done.
Qed.

(** [deallocate] on a buffer that is marked allocated and whose pointer
    [free] accepts. *)
Lemma deallocate_allocated this w o :
  objects w !! this = Some o → allocated_ o = true → can_free w (ptr_ o) = true →
  deallocate this w = Returns tt (set_obj this empty_fields (released (ptr_ o) w)).
Proof.
  intros Ho Ha Hf. rewrite (deallocate_run _ _ _ Ho), Ha. by rewrite (free_run _ _ Hf).
Qed.

Lemma deallocate_not_allocated this w o :
  objects w !! this = Some o → allocated_ o = false → deallocate this w = Returns tt w.
Proof. intros Ho Ha. by rewrite (deallocate_run _ _ _ Ho), Ha. Qed.

(** Whatever [deallocate] returns, calling it again changes nothing. *)
Lemma deallocate_idempotent this w w' :
  deallocate this w = Returns tt w' → deallocate this w' = Returns tt w'.
Proof.
  intros H. destruct (objects w !! this) as [o|] eqn:Ho.
  - rewrite (deallocate_run _ _ _ Ho) in H. destruct (allocated_ o) eqn:Ha.
    + destruct (free (ptr_ o) w) as [[] w1| |]; [|done..]. injection H as <-.
      apply (deallocate_not_allocated _ _ empty_fields); [solve_lookup | done].
    + injection H as <-. by apply (deallocate_not_allocated _ _ o).
  - unfold deallocate, get_allocated, read_obj, bind in H. by rewrite Ho in H.
Qed.

Lemma resize_run n this w o :
  objects w !! this = Some o →
  resize sizeof_T n this w =
    if decide (n = size_ o) then Returns tt w
    else if decide (n = 0) then deallocate this w
    else reallocate sizeof_T n this w.
Proof. intros Ho. unfold resize. field_steps. by repeat case_decide. Qed.

Lemma is_allocated_run this w o :
  objects w !! this = Some o → is_allocated this w = Returns (allocated_ o) w.
Proof. apply get_allocated_run. Qed.

Lemma size_run this w o :
  objects w !! this = Some o → size this w = Returns (size_ o) w.
Proof. apply get_size_run. Qed.

Lemma get_run this w o :
  objects w !! this = Some o → get this w = Returns (ptr_ o) w.
Proof. apply get_ptr_run. Qed.

(** ** clear *)

Lemma clear_false_run this w o :
  objects w !! this = Some o →
  clear false this w = Returns tt (set_obj this (mkSafePointer nullptr (allocated_ o) 0) w).
Proof. intros Ho. unfold clear. by field_steps. Qed.

(** C4.  On an allocated buffer, [clear(false)] returns and leaves
    [is_allocated()] true, [size()] 0 and [get()] null; [clear(true)], on a
    buffer whose region [free] accepts, returns and leaves
    [is_allocated()] false and [size()] 0. *)
Theorem clear_contract this w o :
  objects w !! this = Some o → allocated_ o = true →
  (∃ w', clear false this w = Returns tt w' ∧
         is_allocated this w' = Returns true w' ∧
         size this w' = Returns 0 w' ∧
         get this w' = Returns nullptr w') ∧
  (can_free w (ptr_ o) = true →
   ∃ w', clear true this w = Returns tt w' ∧
         is_allocated this w' = Returns false w' ∧
         size this w' = Returns 0 w').
Proof.
  intros Ho Ha. split.
  - eexists. split; [by apply clear_false_run|]. rewrite Ha.
    erewrite is_allocated_run, size_run, get_run by solve_lookup. done.
  - intros Hf. eexists. split; [by apply deallocate_allocated|].
    erewrite is_allocated_run, size_run by solve_lookup. done.
Qed.

(** ** set *)

Lemma set_run ptr this w o :
  objects w !! this = Some o → allocated_ o = true → can_free w (ptr_ o) = true →
  set ptr this w =
    Returns tt (set_obj this (mkSafePointer ptr (negb (is_null ptr)) 0)
                  (released (ptr_ o) w)).
Proof.
  intros Ho Ha Hf. unfold set. field_steps. rewrite Ha.
  erewrite bind_Returns by (by apply deallocate_allocated). by field_steps.
Qed.

(** C10.  After [set(p)] with a non-null [p] on a buffer that was
    allocated, [is_allocated()] is true and [size()] is 0, whatever the
    count was before and whatever [p] points to. *)
Theorem set_resets_size ptr this w o :
  objects w !! this = Some o → allocated_ o = true → can_free w (ptr_ o) = true →
  ptr ≠ nullptr →
  ∃ w', set ptr this w = Returns tt w' ∧
        is_allocated this w' = Returns true w' ∧
        size this w' = Returns 0 w' ∧
        get this w' = Returns ptr w'.
Proof.
  intros Ho Ha Hf Hp. eexists. split; [by apply set_run|].
  erewrite is_allocated_run, size_run, get_run by solve_lookup.
  by destruct ptr.
Qed.

(** ** resize(0) and release *)

(** C3, amended.  When [size()] is not 0, [resize(0)] is [deallocate()],
    and from an allocated buffer whose region [free] accepts both leave
    [is_allocated()] false and [size()] 0.  When [size()] is 0, as after
    [clear(false)], [resize(0)] does nothing at all.  Each of the two calls
    is idempotent. *)
Theorem resize_zero_release this w o :
  objects w !! this = Some o →
  (size_ o ≠ 0 → resize sizeof_T 0 this w = deallocate this w) ∧
  (size_ o = 0 → resize sizeof_T 0 this w = Returns tt w) ∧
  (allocated_ o = true → can_free w (ptr_ o) = true →
   ∃ w', deallocate this w = Returns tt w' ∧
         is_allocated this w' = Returns false w' ∧
         size this w' = Returns 0 w') ∧
  (∀ w', deallocate this w = Returns tt w' → deallocate this w' = Returns tt w') ∧
  (∀ w', resize sizeof_T 0 this w = Returns tt w' →
         resize sizeof_T 0 this w' = Returns tt w').
Proof.
  intros Ho. rewrite (resize_run _ _ _ _ Ho). repeat split.
  - intros Hn. rewrite decide_False by done. by rewrite decide_True.
  - intros Hn. by rewrite decide_True.
  - intros Ha Hf. eexists. split; [by apply deallocate_allocated|].
    erewrite is_allocated_run, size_run by solve_lookup. done.
  - apply deallocate_idempotent.
  - intros w'. case_decide as Hn.
    + intros [= <-]. rewrite (resize_run _ _ _ _ Ho). by rewrite decide_True.
    + rewrite decide_True by done. intros Hd.
      rewrite (deallocate_run _ _ _ Ho) in Hd. destruct (allocated_ o) eqn:Ha.
      * destruct (free (ptr_ o) w) as [[] w1| |]; [|done..]. injection Hd as <-.
        erewrite resize_run by solve_lookup. by rewrite decide_True.
      * injection Hd as <-. rewrite (resize_run _ _ _ _ Ho).
        rewrite decide_False by done. rewrite decide_True by done.
        by apply (deallocate_not_allocated _ _ o).
Qed.

(** ** The allocator *)

Lemma objects_decided w : objects (decided w) = objects w.
Proof. unfold decided, next_decision. by destruct (allocator w). Qed.

Lemma heap_decided w : heap (decided w) = heap w.
Proof. unfold decided, next_decision. by destruct (allocator w). Qed.

Lemma next_decision_decided w : next_decision w = (fst (next_decision w), decided w).
Proof. unfold decided. by destruct (next_decision w). Qed.

(** [malloc] always returns: a null pointer and an untouched heap, or the
    start of a block that was free, now holding indeterminate cells. *)
Lemma malloc_cases bytes w :
  malloc sizeof_T bytes w = Returns nullptr (decided w) ∨
  ∃ b, fst (next_decision w) = Some b ∧ heap w !! b = None ∧
       malloc sizeof_T bytes w =
         Returns (Ptr b 0)
           (place b (replicate (cells_of_bytes sizeof_T bytes) None) (decided w)).
Proof.
  unfold malloc. rewrite next_decision_decided.
  destruct (fst (next_decision w)) as [b|]; [|by left].
  rewrite heap_decided. destruct (heap w !! b) eqn:Hb; [by left|].
  right. by exists b.
Qed.

Lemma malloc_granted bytes w b ds :
  allocator w = Some b :: ds → heap w !! b = None →
  malloc sizeof_T bytes w =
    Returns (Ptr b 0)
      (place b (replicate (cells_of_bytes sizeof_T bytes) None) (decided w)).
Proof.
  intros Hal Hb. unfold malloc, decided, next_decision. rewrite Hal. simpl. by rewrite Hb.
Qed.

(** [realloc] on the start of a live region, for a byte count that is
    not zero: it fails and leaves the heap as it was, or resizes the
    region in place, or moves it to a block that was free. *)
Lemma realloc_cases b bytes w cs :
  heap w !! b = Some cs → bytes ≠ 0 →
  realloc sizeof_T (Ptr b 0) bytes w = Returns nullptr (decided w) ∨
  realloc sizeof_T (Ptr b 0) bytes w =
    Returns (Ptr b 0)
      (place b (resize_cells (cells_of_bytes sizeof_T bytes) cs) (decided w)) ∨
  ∃ b', b' ≠ b ∧ heap w !! b' = None ∧
        realloc sizeof_T (Ptr b 0) bytes w =
          Returns (Ptr b' 0)
            (place b' (resize_cells (cells_of_bytes sizeof_T bytes) cs)
               (set_heap (delete b (heap w)) (decided w))).
Proof.
  intros Hb Hbytes. unfold realloc. rewrite Hb.
  rewrite decide_False by (intros H; by apply H). rewrite decide_False by done.
  rewrite next_decision_decided.
  destruct (fst (next_decision w)) as [b'|]; [|by left].
  case_decide as Hbb; [subst; by right; left|].
  rewrite !heap_decided. destruct (heap w !! b') eqn:Hb'; [by left|].
  right; right. by exists b'.
Qed.

(** [realloc] to zero bytes on the start of a live region. *)
Lemma realloc_zero b w cs :
  heap w !! b = Some cs →
  realloc sizeof_T (Ptr b 0) 0 w = Returns nullptr (released (Ptr b 0) w).
Proof.
  intros Hb. unfold realloc. rewrite Hb.
  rewrite decide_False by (intros H; by apply H). by rewrite decide_True.
Qed.

(** What [realloc] is undefined on. *)
Lemma realloc_defined p bytes w q w1 :
  realloc sizeof_T p bytes w = Returns q w1 →
  p = nullptr ∨ ∃ b cs, p = Ptr b 0 ∧ heap w !! b = Some cs.
Proof.
  destruct p as [|b off]; [by left|]. unfold realloc.
  destruct (heap w !! b) as [cs|] eqn:Hb; [|done].
  case_decide as H; [done|]. right. exists b, cs.
  split; [|done]. f_equal. by destruct (decide (off = 0)).
Qed.

Lemma realloc_no_throw p bytes w e w1 : realloc sizeof_T p bytes w ≠ Throws e w1.
Proof.
  destruct p as [|b off].
  - simpl. destruct (malloc_cases bytes w) as [->|(b & _ & _ & ->)]; done.
  - unfold realloc. destruct (heap w !! b) as [cs|]; [|done].
    case_decide; [done|]. case_decide; [done|].
    destruct (next_decision w) as [[b'|] w'']; [|done].
    case_decide; [done|]. by destruct (heap w'' !! b').
Qed.

(** A failed [realloc] for a byte count that is not zero leaves the
    objects and the heap as they were. *)
Lemma realloc_null p bytes w w1 :
  bytes ≠ 0 → realloc sizeof_T p bytes w = Returns nullptr w1 → w1 = decided w.
Proof.
  intros Hbytes H. destruct (realloc_defined _ _ _ _ _ H) as [->|(b & cs & -> & Hb)].
  - simpl in H. destruct (malloc_cases bytes w) as [E|(b & _ & _ & E)];
      rewrite E in H; congruence.
  - destruct (realloc_cases _ _ _ _ Hb Hbytes) as [E|[E|(b' & _ & _ & E)]];
      rewrite E in H; congruence.
Qed.

Lemma realloc_objects p bytes w q w1 :
  realloc sizeof_T p bytes w = Returns q w1 → objects w1 = objects w.
Proof.
  intros H. destruct (realloc_defined _ _ _ _ _ H) as [->|(b & cs & -> & Hb)].
  - simpl in H. destruct (malloc_cases bytes w) as [E|(b & _ & _ & E)];
      rewrite E in H; injection H as <- <-; apply objects_decided.
  - destruct (decide (bytes = 0)) as [->|Hbytes].
    + rewrite (realloc_zero _ _ _ Hb) in H. by injection H as <- <-.
    + destruct (realloc_cases _ _ _ _ Hb Hbytes) as [E|[E|(b' & _ & _ & E)]];
        rewrite E in H; injection H as <- <-; apply objects_decided.
Qed.

(** ** allocate and reallocate *)

Lemma allocate_body_ext (f g : Z → addr → M unit) n this w :
  (∀ o, objects w !! this = Some o → allocated_ o = true → f n this w = g n this w) →
  allocate_body sizeof_T f n this w = allocate_body sizeof_T g n this w.
Proof.
  intros Hfg. unfold allocate_body. case_decide; [done|].
  destruct (objects w !! this) as [o|] eqn:Ho.
  - field_steps. destruct (allocated_ o) eqn:Ha; [by eapply Hfg | done].
  - unfold bind, get_allocated, read_obj, bind. by rewrite Ho.
Qed.

Lemma reallocate_body_ext (f g : Z → addr → M unit) n this w :
  (∀ o, objects w !! this = Some o → allocated_ o = false → f n this w = g n this w) →
  reallocate_body sizeof_T f n this w = reallocate_body sizeof_T g n this w.
Proof.
  intros Hfg. unfold reallocate_body. case_decide; [done|].
  destruct (objects w !! this) as [o|] eqn:Ho.
  - field_steps. destruct (allocated_ o) eqn:Ha; [done | by eapply Hfg].
  - unfold bind, get_allocated, read_obj, bind. by rewrite Ho.
Qed.

(** The two methods satisfy the equations of the header: the bound on the
    depth of their calls is never reached. *)
Lemma allocate_unfold n this w :
  allocate sizeof_T n this w = allocate_body sizeof_T (reallocate sizeof_T) n this w.
Proof.
  unfold allocate, reallocate. simpl. apply allocate_body_ext. intros o Ho Ha.
  apply reallocate_body_ext. intros o' Ho' Ha'. congruence.
Qed.

Lemma reallocate_unfold n this w :
  reallocate sizeof_T n this w = reallocate_body sizeof_T (allocate sizeof_T) n this w.
Proof.
  unfold allocate, reallocate. simpl. apply reallocate_body_ext. intros o Ho Ha.
  apply allocate_body_ext. intros o' Ho' Ha'. congruence.
Qed.

(** [reallocate] on a buffer marked allocated. *)
Lemma reallocate_owned n this w o :
  objects w !! this = Some o → allocated_ o = true → n ≠ 0 →
  reallocate sizeof_T n this w =
    match realloc sizeof_T (ptr_ o) (to_size_t (n * sizeof_T)) w with
    | Returns q w1 =>
        if is_null q then Throws (runtime_error "Memory reallocation failed") w1
        else Returns tt (set_obj this (mkSafePointer q true n) w1)
    | Throws e w1 => Throws e w1
    | Undefined => Undefined
    end.
Proof.
  intros Ho Ha Hn. rewrite reallocate_unfold. unfold reallocate_body.
  rewrite decide_False by done. field_steps. rewrite Ha. simpl. field_steps.
  unfold bind at 1.
  destruct (realloc _ _ _ _) as [q w1| |] eqn:Hr; [|done..].
  destruct (is_null q); [done|].
  apply realloc_objects in Hr.
  assert (objects w1 !! this = Some o) by (by rewrite Hr).
  field_steps. by rewrite Ha.
Qed.

(** [allocate] on a buffer not marked allocated. *)
Lemma allocate_fresh n this w o :
  objects w !! this = Some o → allocated_ o = false → n ≠ 0 →
  allocate sizeof_T n this w =
    match malloc sizeof_T (to_size_t (n * sizeof_T)) w with
    | Returns q w1 =>
        if is_null q then
          Throws (runtime_error "Memory allocation failed")
            (set_obj this (mkSafePointer nullptr false (size_ o)) w1)
        else Returns tt (set_obj this (mkSafePointer q true n) w1)
    | Throws e w1 => Throws e w1
    | Undefined => Undefined
    end.
Proof.
  intros Ho Ha Hn. rewrite allocate_unfold. unfold allocate_body.
  rewrite decide_False by done. field_steps. rewrite Ha.
  unfold bind at 1.
  destruct (malloc _ _ _) as [q w1| |] eqn:Hm; [|done..].
  apply (realloc_objects nullptr) in Hm.
  assert (objects w1 !! this = Some o) by (by rewrite Hm).
  field_steps. rewrite Ha. destruct q; simpl; [done|]. by field_steps.
Qed.

Lemma allocate_owned n this w o :
  objects w !! this = Some o → allocated_ o = true → n ≠ 0 →
  allocate sizeof_T n this w = reallocate sizeof_T n this w.
Proof.
  intros Ho Ha Hn. rewrite allocate_unfold. unfold allocate_body.
  rewrite decide_False by done. field_steps. by rewrite Ha.
Qed.

Lemma reallocate_fresh n this w o :
  objects w !! this = Some o → allocated_ o = false → n ≠ 0 →
  reallocate sizeof_T n this w = allocate sizeof_T n this w.
Proof.
  intros Ho Ha Hn. rewrite reallocate_unfold. unfold reallocate_body.
  rewrite decide_False by done. field_steps. by rewrite Ha.
Qed.

Lemma allocate_zero this w :
  allocate sizeof_T 0 this w = Throws (invalid_argument "Cannot allocate 0 elements") w.
Proof. by rewrite allocate_unfold. Qed.

Lemma realloc_refused p bytes w :
  can_free w p = true → bytes ≠ 0 → fst (next_decision w) = None →
  realloc sizeof_T p bytes w = Returns nullptr (decided w).
Proof.
  intros Hf Hbytes Hd. destruct p as [|b off]; simpl.
  - unfold malloc. rewrite next_decision_decided, Hd. done.
  - simpl in Hf. apply andb_prop in Hf as [->%bool_decide_eq_true [cs Hcs]%bool_decide_eq_true].
    rewrite Hcs. rewrite decide_False by (intros H; by apply H).
    rewrite decide_False by done. by rewrite next_decision_decided, Hd.
Qed.

(** C5, amended.  When [reallocate(n)], [n > 0], throws on an allocated
    buffer, and the size in bytes [n * sizeof(T)] has not wrapped around
    to 0 in [size_t], the exception is the reallocation failure and the
    objects and the heap are exactly what they were: same pointer, same
    count, same flag, same cells.  It does throw whenever the allocator
    refuses the request. *)
Theorem reallocate_failure_keeps_state n this w o :
  objects w !! this = Some o → allocated_ o = true → 0 < n →
  to_size_t (n * sizeof_T) ≠ 0 →
  (∀ e w', reallocate sizeof_T n this w = Throws e w' →
     e = runtime_error "Memory reallocation failed" ∧
     kind_of e = ReallocationFailure ∧
     objects w' = objects w ∧ heap w' = heap w ∧
     objects w' !! this = Some o ∧ (∀ i, elem w' o i = elem w o i)) ∧
  (can_free w (ptr_ o) = true → fst (next_decision w) = None →
   reallocate sizeof_T n this w =
     Throws (runtime_error "Memory reallocation failed") (decided w)).
Proof.
  intros Ho Ha Hn Hbytes. rewrite (reallocate_owned _ _ _ _ Ho Ha) by lia. split.
  - intros e w' H.
    destruct (realloc _ _ _ _) as [q w1| |] eqn:Hr; [|by apply realloc_no_throw in Hr|done].
    destruct q as [|b off]; [|done]. simpl in H. simplify_eq.
    apply realloc_null in Hr as ->; [|done].
    rewrite objects_decided. unfold elem. rewrite heap_decided. done.
  - intros Hf Hd. by rewrite (realloc_refused _ _ _ Hf Hbytes Hd).
Qed.

(** C6.  A call [allocate(n)], [n > 0], that returns leaves
    [is_allocated()] true and [size()] equal to [n], and it does return
    when the buffer holds nothing and the allocator grants a free block.
    [allocate(0)] throws the invalid-argument error and changes nothing,
    so a buffer that was empty stays empty. *)
Theorem allocate_contract n this w o :
  objects w !! this = Some o →
  (0 < n → ∀ w', allocate sizeof_T n this w = Returns tt w' →
     is_allocated this w' = Returns true w' ∧ size this w' = Returns n w') ∧
  (0 < n → allocated_ o = false →
   ∀ b ds, allocator w = Some b :: ds → heap w !! b = None →
     ∃ w', allocate sizeof_T n this w = Returns tt w') ∧
  (∃ e, allocate sizeof_T 0 this w = Throws e w ∧ kind_of e = InvalidArgument).
Proof.
  intros Ho. split; [|split].
  - intros Hn w' H. destruct (allocated_ o) eqn:Ha.
    + rewrite (allocate_owned _ _ _ _ Ho Ha), (reallocate_owned _ _ _ _ Ho Ha) in H by lia.
      destruct (realloc _ _ _ _) as [q w1| |]; [|done..].
      destruct (is_null q); [done|]. injection H as <-.
      by erewrite is_allocated_run, size_run by solve_lookup.
    + rewrite (allocate_fresh _ _ _ _ Ho Ha) in H by lia.
      destruct (malloc _ _ _) as [q w1| |]; [|done..].
      destruct (is_null q); [done|]. injection H as <-.
      by erewrite is_allocated_run, size_run by solve_lookup.
  - intros Hn Ha b ds Hal Hb. rewrite (allocate_fresh _ _ _ _ Ho Ha) by lia.
    rewrite (malloc_granted _ _ _ _ Hal Hb). simpl. eauto.
  - exists (invalid_argument "Cannot allocate 0 elements"). by rewrite allocate_zero.
Qed.

(** ** resize *)

Lemma resize_cells_lookup (k i : nat) (cs : list (option T)) c :
  (i < k)%nat → cs !! i = Some c → resize_cells k cs !! i = Some c.
Proof.
  intros Hik Hc. unfold resize_cells. apply lookup_app_l_Some.
  by rewrite lookup_take_lt.
Qed.

Lemma cells_of_bytes_exact n :
  0 < sizeof_T → 0 ≤ n → n * sizeof_T < size_modulus →
  cells_of_bytes sizeof_T (to_size_t (n * sizeof_T)) = Z.to_nat n.
Proof.
  intros Hs Hn Hfit. unfold cells_of_bytes, to_size_t.
  rewrite Z.mod_small by nia. by rewrite Z.div_mul by lia.
Qed.

Lemma cell_at_insert_eq (h : gmap block (list (option T))) b cs i :
  cell_at (<[b := cs]> h) (Ptr b i) = if decide (0 ≤ i) then cs !! Z.to_nat i else None.
Proof. unfold cell_at. by rewrite lookup_insert_eq. Qed.

Lemma cell_at_insert_ne (h : gmap block (list (option T))) b b' cs i :
  b ≠ b' → cell_at (<[b := cs]> h) (Ptr b' i) = cell_at h (Ptr b' i).
Proof. intros. unfold cell_at. by rewrite lookup_insert_ne. Qed.

(** [realloc] succeeds when the allocator resizes in place or proposes a
    block that is free. *)
Lemma realloc_granted b b' bytes w cs ds :
  heap w !! b = Some cs → bytes ≠ 0 →
  allocator w = Some b' :: ds → b' = b ∨ heap w !! b' = None →
  ∃ q w', realloc sizeof_T (Ptr b 0) bytes w = Returns q w' ∧ q ≠ nullptr.
Proof.
  intros Hb Hbytes Hal Hfree. unfold realloc. rewrite Hb.
  rewrite decide_False by (intros H; by apply H). rewrite decide_False by done.
  unfold next_decision. rewrite Hal. case_decide; [by eexists _, _|]. simpl.
  destruct Hfree as [? | Hb']; [done|]. rewrite Hb'. by eexists _, _.
Qed.

(** [resize(n)] returns on a buffer that owns a live region when the
    allocator grants the request. *)
Lemma resize_returns n this w o b b' cs ds :
  objects w !! this = Some o → allocated_ o = true → ptr_ o = Ptr b 0 →
  heap w !! b = Some cs → n ≠ 0 → to_size_t (n * sizeof_T) ≠ 0 →
  allocator w = Some b' :: ds → b' = b ∨ heap w !! b' = None →
  ∃ w', resize sizeof_T n this w = Returns tt w'.
Proof.
  intros Ho Ha Hp Hb Hn Hbytes Hal Hfree. rewrite (resize_run _ _ _ _ Ho).
  case_decide; [by eexists|]. rewrite decide_False by done.
  rewrite (reallocate_owned _ _ _ _ Ho Ha Hn), Hp.
  destruct (realloc_granted _ _ _ _ _ _ Hb Hbytes Hal Hfree) as (q & w' & -> & Hq).
  destruct q; [done|]. by eexists.
Qed.

(** C8, amended.  On an allocated buffer of size [m], a call [resize(n)]
    that returns, with [n > 0], [n ≠ m] and [n * sizeof(T)] within
    [size_t], leaves [size()] equal to [n] and every element that stood
    at an index below [min m n] where it was; [resize(m)] does nothing. *)
Theorem resize_preserves_prefix n this w o :
  0 < sizeof_T → objects w !! this = Some o → allocated_ o = true →
  (0 < n → n ≠ size_ o → n * sizeof_T < size_modulus →
   ∀ w', resize sizeof_T n this w = Returns tt w' →
     ∃ o', objects w' !! this = Some o' ∧
           size this w' = Returns n w' ∧
           ∀ i c, 0 ≤ i < Z.min (size_ o) n →
                  elem w o i = Some c → elem w' o' i = Some c) ∧
  (n = size_ o → resize sizeof_T n this w = Returns tt w).
Proof.
  intros Hs Ho Ha. rewrite (resize_run _ _ _ _ Ho). split.
  - intros Hn Hne Hfit w'. rewrite !decide_False by lia.
    rewrite (reallocate_owned _ _ _ _ Ho Ha) by lia.
    pose proof (cells_of_bytes_exact n Hs ltac:(lia) Hfit) as Hcells.
    destruct (realloc _ _ _ _) as [q w1| |] eqn:Hr; [|done..].
    destruct q as [|bq offq]; [done|]. simpl. intros [= <-].
    eexists. split; [solve_lookup|]. split; [by erewrite size_run by solve_lookup|].
    intros i c Hi Hc. unfold elem in *. simpl.
    destruct (realloc_defined _ _ _ _ _ Hr) as [Hp|(b & cs & Hp & Hb)];
      rewrite Hp in *; [done|].
    assert (to_size_t (n * sizeof_T) ≠ 0) as Hbytes
      by (unfold to_size_t; rewrite Z.mod_small by nia; nia).
    simpl in Hc. rewrite Hb, decide_True in Hc by lia.
    replace (0 + i) with i in Hc by lia.
    assert (resize_cells (cells_of_bytes sizeof_T (to_size_t (n * sizeof_T))) cs
              !! Z.to_nat i = Some c) as Hnew.
    { apply resize_cells_lookup; [rewrite Hcells; lia | done]. }
    destruct (realloc_cases _ _ _ _ Hb Hbytes) as [E|[E|(b' & Hbb & Hb' & E)]];
      rewrite E in Hr; simplify_eq; simpl;
      rewrite lookup_insert_eq, decide_True by lia;
      by replace (0 + i) with i by lia.
  - intros ->. by rewrite decide_True.
Qed.

(** ** Loads, stores and the copy loop *)

Lemma load_inv p w c w' :
  load p w = Returns c w' → w' = w ∧ cell_at (heap w) p = Some c.
Proof. unfold load. destruct (cell_at (heap w) p); [|done]. by intros [= <- <-]. Qed.

Lemma store_inv p c w w' :
  store p c w = Returns tt w' →
  p ≠ nullptr ∧ objects w' = objects w ∧ allocator w' = allocator w ∧
  ∀ q, cell_at (heap w') q = if decide (q = p) then Some c else cell_at (heap w) q.
Proof.
  unfold store. destruct p as [|b o]; [done|].
  destruct (heap w !! b) as [cs|] eqn:Hb; [|done].
  case_decide as Hin; [|done]. destruct Hin as [Ho Hlen]. intros [= <-].
  repeat split; [done|]. intros [|b' o']; simpl; [done|].
  destruct (decide (b' = b)) as [->|Hbb].
  - rewrite lookup_insert_eq, Hb.
    destruct (decide (Ptr b o' = Ptr b o)) as [Heq|Heq].
    + injection Heq as ->. rewrite decide_True by done.
      by apply list_lookup_insert_eq.
    + destruct (decide (0 ≤ o')); [|done]. apply list_lookup_insert_ne. intros E.
      apply Heq. f_equal. lia.
  - rewrite lookup_insert_ne by done. rewrite decide_False by congruence. done.
Qed.

Lemma ptr_plus_next p i : ptr_plus (ptr_next p) i = ptr_plus p (i + 1).
Proof. destruct p as [|b o]; [done|]. simpl. f_equal. lia. Qed.

Lemma ptr_plus_0 p : ptr_plus p 0 = p.
Proof. destruct p as [|b o]; [done|]. simpl. f_equal. lia. Qed.

Lemma ptr_plus_inj p i j : p ≠ nullptr → ptr_plus p i = ptr_plus p j → i = j.
Proof. destruct p as [|b o]; [done|]. simpl. intros _ [= ?]. lia. Qed.

(** The copy loop writes [dst .. dst+n-1] and nothing else. *)
Lemma copy_loop_frame (n : nat) src dst w w' :
  copy_loop n src dst w = Returns tt w' →
  objects w' = objects w ∧ allocator w' = allocator w ∧
  ∀ q, (∀ i, 0 ≤ i < Z.of_nat n → q ≠ ptr_plus dst i) →
       cell_at (heap w') q = cell_at (heap w) q.
Proof.
  revert src dst w. induction n as [|k IH]; intros src dst w.
  - simpl. by intros [= <-].
  - simpl. intros H.
    apply bind_inv_Returns in H as (c & w0 & [-> Hc]%load_inv & H).
    apply bind_inv_Returns in H as ([] & w1 & (Hnn & Hobj & Hal & Hst)%store_inv & H).
    apply IH in H as (Hobj' & Hal' & Hfr).
    split; [congruence|]. split; [congruence|]. intros q Hq.
    rewrite Hfr.
    + rewrite Hst. rewrite decide_False; [done|].
      rewrite <- (ptr_plus_0 dst). apply Hq. lia.
    + intros i Hi. rewrite ptr_plus_next. apply Hq. lia.
Qed.

(** When no write of the loop lands on a cell it has yet to read, the cell
    at [dst+i] ends up holding what [src+i] held. *)
Lemma copy_loop_cells (n : nat) src dst w w' :
  copy_loop n src dst w = Returns tt w' →
  (∀ i j, 0 ≤ i < j → j < Z.of_nat n → ptr_plus dst i ≠ ptr_plus src j) →
  ∀ i, 0 ≤ i < Z.of_nat n →
    is_Some (cell_at (heap w) (ptr_plus src i)) ∧
    cell_at (heap w') (ptr_plus dst i) = cell_at (heap w) (ptr_plus src i).
Proof.
  revert src dst w. induction n as [|k IH]; intros src dst w; [intros; lia|].
  simpl. intros H Hclob i Hi.
  apply bind_inv_Returns in H as (c & w0 & [-> Hc]%load_inv & H).
  apply bind_inv_Returns in H as ([] & w1 & (Hnn & Hobj & Hal & Hst)%store_inv & H).
  destruct (decide (i = 0)) as [->|Hi0].
  - rewrite !ptr_plus_0, Hc. split; [done|].
    apply copy_loop_frame in H as (_ & _ & Hfr). rewrite Hfr.
    + rewrite Hst. by rewrite decide_True.
    + intros i Hi'. rewrite ptr_plus_next. rewrite <- (ptr_plus_0 dst) at 1.
      intros E. apply ptr_plus_inj in E; [lia | done].
  - specialize (IH _ _ _ H). 
    assert (∀ i j, 0 ≤ i < j → j < Z.of_nat k →
              ptr_plus (ptr_next dst) i ≠ ptr_plus (ptr_next src) j) as Hclob'.
    { intros i' j' Hij Hj. rewrite !ptr_plus_next. apply Hclob; lia. }
    destruct (IH Hclob' (i - 1) ltac:(lia)) as [Hsome Heq].
    rewrite (ptr_plus_next src) in Hsome.
    rewrite (ptr_plus_next src), (ptr_plus_next dst) in Heq.
    replace (i - 1 + 1) with i in * by lia.
    rewrite Hst in Hsome, Heq. rewrite decide_False in Hsome, Heq; [done| |].
    + intros E. apply (Hclob 0 i); [lia | lia |]. by rewrite ptr_plus_0.
    + intros E. apply (Hclob 0 i); [lia | lia |]. by rewrite ptr_plus_0.
Qed.

(** [std::copy], when it returns, has copied the cells one by one, and has
    left the objects and every cell outside the destination as they
    were. *)
Lemma std_copy_inv first last d w w' :
  std_copy first last d w = Returns tt w' →
  ∃ n, ptr_diff last first = Some n ∧ 0 ≤ n ∧
       in_span first last d = false ∧
       objects w' = objects w ∧ allocator w' = allocator w ∧
       (∀ i, 0 ≤ i < n →
          is_Some (cell_at (heap w) (ptr_plus first i)) ∧
          cell_at (heap w') (ptr_plus d i) = cell_at (heap w) (ptr_plus first i)) ∧
       (∀ q, (∀ i, 0 ≤ i < n → q ≠ ptr_plus d i) →
             cell_at (heap w') q = cell_at (heap w) q).
Proof.
  unfold std_copy. intros H.
  apply bind_inv_Returns in H as (n & w0 & Hn & H).
  destruct (ptr_diff last first) as [n'|] eqn:Hd; [|done].
  simpl in Hn. injection Hn as -> ->.
  case_decide as Hneg; [done|].
  destruct (in_span first last d) eqn:Hspan; [done|].
  exists n. split; [done|]. split; [lia|]. split; [done|].
  pose proof (copy_loop_frame _ _ _ _ _ H) as (Hobj & Hal & Hfr).
  split; [done|]. split; [done|]. split.
  - intros i Hi. eapply copy_loop_cells; [done| |lia].
    intros i' j' Hij Hj E.
    destruct first as [|fb fo], last as [|lb lo], d as [|db dof];
      simplify_eq/=; try lia.
    case_decide; simplify_eq.
    apply bool_decide_eq_false in Hspan. apply Hspan. split; [done|]. lia.
  - intros q Hq. apply Hfr. intros i Hi. apply Hq. lia.
Qed.

Lemma store_returns p c w :
  is_Some (cell_at (heap w) p) → ∃ w', store p c w = Returns tt w'.
Proof.
  unfold store, cell_at. destruct p as [|b o]; [by intros [? ?]|].
  destruct (heap w !! b) as [cs|]; [|by intros [? ?]].
  case_decide as Ho; [|by intros [? ?]]. intros Hc%lookup_lt_is_Some.
  rewrite decide_True by done. eauto.
Qed.

(** The copy loop returns when the cells it reads and writes exist. *)
Lemma copy_loop_returns (n : nat) src dst w :
  (∀ i, 0 ≤ i < Z.of_nat n →
     is_Some (cell_at (heap w) (ptr_plus src i)) ∧
     is_Some (cell_at (heap w) (ptr_plus dst i))) →
  ∃ w', copy_loop n src dst w = Returns tt w'.
Proof.
  revert src dst w. induction n as [|k IH]; intros src dst w Hcells; [by eexists|].
  simpl. destruct (Hcells 0 ltac:(lia)) as [[c Hc] Hd]. rewrite !ptr_plus_0 in *.
  assert (load src w = Returns c w) as Hl by (unfold load; by rewrite Hc).
  rewrite (bind_Returns _ _ _ _ _ Hl).
  destruct (store_returns dst c w Hd) as [w1 Hs].
  rewrite (bind_Returns _ _ _ _ _ Hs).
  apply store_inv in Hs as (_ & _ & _ & Hst).
  apply IH. intros i Hi. rewrite !ptr_plus_next, !Hst.
  destruct (Hcells (i + 1) ltac:(lia)) as [? ?].
  split; case_decide; done.
Qed.

(** ** set_values *)

(** C7, amended.  [set_values(src_begin, src_end, dst_begin)] throws the
    not-allocated error when the buffer is not marked allocated or its
    pointer is null; otherwise the invalid-argument error when one of the
    three pointers is null; otherwise, with [dst_begin] in the owned
    region, it takes [size_ - (dst_begin - ptr_)] in [size_t] arithmetic
    as the capacity, which is the count minus the offset of [dst_begin]
    when that offset lies between 0 and the count and has wrapped around
    when it does not, and throws the invalid-argument error when the
    length of the source exceeds it; otherwise it is
    [std::copy(src_begin, src_end, dst_begin)], which returns when the
    cells exist and leaves in [dst_begin + i] what [src_begin + i] held. *)
Theorem set_values_checks src_begin src_end dst_begin this w o :
  objects w !! this = Some o →
  (allocated_ o = false ∨ ptr_ o = nullptr →
   ∃ e, set_values src_begin src_end dst_begin this w = Throws e w ∧
        kind_of e = NotAllocated) ∧
  (allocated_ o = true → ptr_ o ≠ nullptr →
   src_begin = nullptr ∨ src_end = nullptr ∨ dst_begin = nullptr →
   ∃ e, set_values src_begin src_end dst_begin this w = Throws e w ∧
        kind_of e = InvalidArgument) ∧
  (allocated_ o = true →
   ∀ b off sb so so' doff,
     ptr_ o = Ptr b off → src_begin = Ptr sb so → src_end = Ptr sb so' →
     dst_begin = Ptr b doff →
     let capacity := to_size_t (size_ o - to_size_t (doff - off)) in
     let len := to_size_t (so' - so) in
     (0 ≤ doff - off ≤ size_ o → is_size_t (size_ o) →
      capacity = size_ o - (doff - off)) ∧
     (len > capacity →
      ∃ e, set_values src_begin src_end dst_begin this w = Throws e w ∧
           kind_of e = InvalidArgument) ∧
     (len ≤ capacity →
      set_values src_begin src_end dst_begin this w =
        std_copy src_begin src_end dst_begin w ∧
      (so ≤ so' → in_span src_begin src_end dst_begin = false →
       (∀ i, 0 ≤ i < so' - so →
          is_Some (cell_at (heap w) (ptr_plus src_begin i)) ∧
          is_Some (cell_at (heap w) (ptr_plus dst_begin i))) →
       ∃ w', set_values src_begin src_end dst_begin this w = Returns tt w') ∧
      (∀ w', set_values src_begin src_end dst_begin this w = Returns tt w' →
         objects w' = objects w ∧
         ∀ i, 0 ≤ i < so' - so →
           cell_at (heap w') (ptr_plus dst_begin i) =
           cell_at (heap w) (ptr_plus src_begin i)))).
Proof.
  intros Ho. unfold set_values. field_steps. split; [|split].
  - intros Hna.
    exists (runtime_error "Cannot set values: memory is not allocated").
    split; [|done]. destruct Hna as [-> | ->]; [done|]. by rewrite orb_true_r.
  - intros Ha Hp Hnull.
    exists (invalid_argument "Source and destination pointers cannot be null").
    split; [|done]. rewrite Ha. destruct (ptr_ o); [done|]. simpl.
    destruct Hnull as [-> | [-> | ->]]; [done | |]; by rewrite ?orb_true_r.
  - intros Ha b off sb so so' doff -> -> -> ->. rewrite Ha.
    cbn [negb orb is_null ptr_diff]. rewrite !decide_True by done.
    cbn [lift_option]. rewrite !bind_ret. field_steps.
    split; [|split].
    + intros Hoff [Hlo Hhi]. unfold to_size_t.
      rewrite (Z.mod_small (doff - off)) by (unfold size_modulus in *; lia).
      apply Z.mod_small. unfold size_modulus in *. lia.
    + intros Hgt. exists (invalid_argument "Source range exceeds destination space").
      by rewrite decide_True.
    + intros Hle. rewrite decide_False by lia. split; [done|]. split.
      * intros Hso Hspan Hcells. unfold std_copy. cbn [ptr_diff].
        rewrite decide_True by done. cbn [lift_option]. rewrite bind_ret.
        rewrite decide_False by lia. rewrite Hspan.
        apply copy_loop_returns. intros i Hi. apply Hcells. lia.
      * intros w' (n & Hn & Hn0 & _ & Hobj & _ & Hcells & _)%std_copy_inv.
        split; [done|]. intros i Hi. apply Hcells.
        simpl in Hn. rewrite decide_True in Hn by done. simplify_eq. lia.
Qed.

(** ** clone *)

Lemma unwinding_inv_Returns {A} (cleanup : M unit) (body : M A) w a w' :
  unwinding cleanup body w = Returns a w' → body w = Returns a w'.
Proof.
  unfold unwinding. destruct (body w) as [a0 w0|e w0|]; [done| |done].
  by destruct (cleanup w0).
Qed.

Lemma ptr_add_inv p k w e w' :
  ptr_add p k w = Returns e w' →
  w' = w ∧
  ((p = nullptr ∧ k = 0 ∧ e = nullptr) ∨
   ∃ b off cs, p = Ptr b off ∧ heap w !! b = Some cs ∧
               0 ≤ off + k ≤ Z.of_nat (length cs) ∧ e = Ptr b (off + k)).
Proof.
  unfold ptr_add. destruct p as [|b off].
  - case_decide; [|done]. intros [= <- <-]. split; [done|]. by left.
  - destruct (heap w !! b) as [cs|] eqn:Hb; [|done]. case_decide; [|done].
    intros [= <- <-]. split; [done|]. right. by exists b, off, cs.
Qed.

Lemma SafePointer_default_run this w raw :
  objects w !! this = Some raw →
  SafePointer_default this w =
    Returns tt (set_obj this (mkSafePointer nullptr false (size_ raw)) w).
Proof. intros Hraw. unfold SafePointer_default. by field_steps. Qed.

Lemma SafePointer_default_undefined this w :
  objects w !! this = None → SafePointer_default this w = Undefined.
Proof.
  intros Hraw. unfold SafePointer_default, bind, set_ptr, write_obj. by rewrite Hraw.
Qed.

Lemma cells_of_bytes_le n :
  0 < sizeof_T → 0 ≤ n →
  (cells_of_bytes sizeof_T (to_size_t (n * sizeof_T)) ≤ Z.to_nat n)%nat.
Proof.
  intros Hs Hn. unfold cells_of_bytes, to_size_t. apply Z2Nat.inj_le.
  - apply Z.div_pos; [|done]. apply Z.mod_pos_bound. done.
  - done.
  - rewrite <- (Z.div_mul n sizeof_T) at 2 by lia.
    apply Z.div_le_mono; [done|]. apply Z.mod_le; [nia | done].
Qed.

(** What a call of [clone] that returns has done: the source points into
    a live block [b]; the clone sits in the storage [ret] and owns a block
    [b'] that was free, other than [b]; the cells of [b'] are those of
    the source, and no cell outside [b'] has changed. *)
Lemma clone_inv ret this w w' o :
  0 < sizeof_T → objects w !! this = Some o →
  clone sizeof_T Elided ret this w = Returns tt w' →
  ∃ b off b',
    ret ≠ this ∧ ptr_ o = Ptr b off ∧ b ≠ b' ∧ heap w !! b' = None ∧ 0 < size_ o ∧
    objects w' = <[ret := mkSafePointer (Ptr b' 0) true (size_ o)]> (objects w) ∧
    (∀ i, 0 ≤ i < size_ o →
       is_Some (cell_at (heap w) (Ptr b (off + i))) ∧
       cell_at (heap w') (Ptr b' i) = cell_at (heap w) (Ptr b (off + i))) ∧
    (∀ b'' x, b'' ≠ b' → cell_at (heap w') (Ptr b'' x) = cell_at (heap w) (Ptr b'' x)).
Proof.
  intros Hs Ho. unfold clone. case_decide as Hrt; [done|].
  destruct (objects w !! ret) as [raw|] eqn:Hraw;
    [|by rewrite (bind_Undefined _ _ _ (SafePointer_default_undefined _ _ Hraw))].
  rewrite (bind_Returns _ _ _ _ _ (SafePointer_default_run _ _ _ Hraw)).
  intros H%unwinding_inv_Returns. revert H. field_steps.
  destruct (decide (size_ o = 0)) as [Hz|Hz].
  { rewrite Hz. by rewrite (bind_Throws _ _ _ _ _ (allocate_zero _ _)). }
  intros H. apply bind_inv_Returns in H as ([] & w1 & Hal & H).
  erewrite allocate_fresh in Hal; [|solve_lookup|done|done]. cbn [size_] in Hal.
  destruct (malloc_cases (to_size_t (size_ o * sizeof_T))
              (set_obj ret (mkSafePointer nullptr false (size_ raw)) w))
    as [E|(b' & _ & Hb' & E)]; rewrite E in Hal; [done|].
  cbn [is_null] in Hal. injection Hal as Hw1.
  set (cs' := replicate (cells_of_bytes sizeof_T (to_size_t (size_ o * sizeof_T))) None)
    in *.
  set (o' := mkSafePointer (Ptr b' 0) true (size_ o)) in *.
  simpl in Hb'.
  assert (objects w1 = <[ret := o']> (objects w)) as Hobj1.
  { rewrite <- Hw1. simpl. rewrite objects_decided. simpl. by rewrite insert_insert_eq. }
  assert (heap w1 = <[b' := cs']> (heap w)) as Hheap1.
  { rewrite <- Hw1. simpl. by rewrite heap_decided. }
  assert (objects w1 !! ret = Some o') as Hret1 by (by rewrite Hobj1, lookup_insert_eq).
  assert (objects w1 !! this = Some o) as Hthis1 by (by rewrite Hobj1, lookup_insert_ne).
  clear Hw1 E. revert H. field_steps.
  intros H. apply bind_inv_Returns in H as (e & w2 & [-> Hadd]%ptr_add_inv & H).
  destruct Hadd as [(_ & ? & _)|(b & off & cs1 & Hp & Hb & Hbound & ->)]; [done|].
  revert H. field_steps.
  intros (n & Hn & Hn0 & Hspan & Hobj & _ & Hcells & Hfr)%std_copy_inv.
  rewrite Hp in Hn, Hspan, Hcells. simpl in Hn.
  rewrite decide_True in Hn by done. injection Hn as <-.
  replace (off + size_ o - off) with (size_ o) in * by lia.
  rewrite Hheap1 in Hb, Hcells, Hfr.
  assert (b ≠ b') as Hbb.
  { intros ->. rewrite lookup_insert_eq in Hb. injection Hb as <-.
    unfold cs' in Hbound. rewrite length_replicate in Hbound.
    pose proof (cells_of_bytes_le (size_ o) Hs Hn0) as Hle.
    destruct (Hcells 0 ltac:(lia)) as [[c Hc] _].
    simpl in Hc. rewrite lookup_insert_eq in Hc. case_decide; [|done].
    simpl in Hspan. apply bool_decide_eq_false in Hspan. apply Hspan. lia. }
  rewrite lookup_insert_ne in Hb by done.
  exists b, off, b'. split_and!; [done | done | done | done | lia | by rewrite Hobj, Hobj1 | |].
  - intros i Hi. destruct (Hcells i Hi) as [Hsome Heq]. simpl in Hsome, Heq.
    rewrite lookup_insert_ne in Hsome, Heq by done.
    unfold cell_at. replace (0 + i) with i in Heq by lia. rewrite Heq. done.
  - intros b'' x Hne. rewrite Hfr.
    + simpl. by rewrite lookup_insert_ne.
    + intros i _ [= ? ?]. done.
Qed.

(** ** Writing through a buffer touches its own block only *)

Lemma fill_loop_frame (n : nat) first v w w' :
  fill_loop n first v w = Returns tt w' →
  objects w' = objects w ∧
  ∀ q, (∀ i, 0 ≤ i < Z.of_nat n → q ≠ ptr_plus first i) →
       cell_at (heap w') q = cell_at (heap w) q.
Proof.
  revert first w. induction n as [|k IH]; intros first w.
  - simpl. by intros [= <-].
  - simpl. intros H.
    apply bind_inv_Returns in H as ([] & w1 & (Hnn & Hobj & Hal & Hst)%store_inv & H).
    apply IH in H as (Hobj' & Hfr).
    split; [congruence|]. intros q Hq. rewrite Hfr.
    + rewrite Hst. rewrite decide_False; [done|].
      rewrite <- (ptr_plus_0 first). apply Hq. lia.
    + intros i Hi. rewrite ptr_plus_next. apply Hq. lia.
Qed.

Lemma end_run this w o :
  objects w !! this = Some o → end_ this w = ptr_add (ptr_ o) (size_ o) w.
Proof. intros Ho. unfold end_. by field_steps. Qed.

Lemma set_value_frame v idx this w w' o b off :
  objects w !! this = Some o → ptr_ o = Ptr b off →
  set_value v idx this w = Returns tt w' →
  objects w' = objects w ∧
  ∀ b'' x, b'' ≠ b → cell_at (heap w') (Ptr b'' x) = cell_at (heap w) (Ptr b'' x).
Proof.
  intros Ho Hp. unfold set_value. field_steps. rewrite Hp.
  destruct (negb (allocated_ o) || is_null (Ptr b off)); [done|].
  intros (_ & Hobj & _ & Hst)%store_inv. split; [done|].
  intros b'' x Hne. rewrite Hst. rewrite decide_False; [done|].
  simpl. congruence.
Qed.

Lemma fill_frame v this w w' o b off :
  objects w !! this = Some o → ptr_ o = Ptr b off →
  fill v this w = Returns tt w' →
  objects w' = objects w ∧
  ∀ b'' x, b'' ≠ b → cell_at (heap w') (Ptr b'' x) = cell_at (heap w) (Ptr b'' x).
Proof.
  intros Ho Hp. unfold fill, begin, fill_range. field_steps. rewrite Hp.
  intros H. apply bind_inv_Returns in H as (e & w1 & He & H).
  rewrite (end_run _ _ _ Ho) in He. apply ptr_add_inv in He as [-> Hadd].
  revert H. field_steps.
  destruct (negb (allocated_ o) || is_null (ptr_ o)); [done|].
  unfold std_fill. intros H.
  apply bind_inv_Returns in H as (n & w1 & Hn & H).
  destruct (ptr_diff e (Ptr b off)) as [n'|] eqn:Hd; [|done].
  simpl in Hn. injection Hn as -> ->. case_decide; [done|].
  apply fill_loop_frame in H as (Hobj & Hfr). split; [done|].
  intros b'' x Hne. apply Hfr. intros i _. simpl. congruence.
Qed.

Lemma set_values2_frame src_begin src_end this w w' o b off :
  objects w !! this = Some o → ptr_ o = Ptr b off →
  set_values2 src_begin src_end this w = Returns tt w' →
  objects w' = objects w ∧
  ∀ b'' x, b'' ≠ b → cell_at (heap w') (Ptr b'' x) = cell_at (heap w) (Ptr b'' x).
Proof.
  intros Ho Hp. unfold set_values2, begin, set_values. field_steps. rewrite Hp.
  destruct (negb (allocated_ o) || is_null (Ptr b off)); [done|].
  destruct (is_null src_begin || is_null src_end || is_null (Ptr b off)); [done|].
  intros H. apply bind_inv_Returns in H as (d_src & w1 & Hd & H).
  destruct (ptr_diff src_end src_begin); [|done]. simpl in Hd. injection Hd as -> ->.
  revert H. simpl. rewrite decide_True by done. simpl. rewrite bind_ret. field_steps.
  case_decide; [done|].
  intros (n & _ & _ & _ & Hobj & _ & _ & Hfr)%std_copy_inv. split; [done|].
  intros b'' x Hne. apply (Hfr (Ptr b'' x)). intros i _. simpl. congruence.
Qed.

(** [clone()] returns when the source holds [size_] cells, [size_ > 0],
    of a live region, their size in bytes fits in [size_t], the storage
    [ret] exists and the allocator grants a block that is free. *)
Lemma clone_returns ret this w o raw b off cs b' ds :
  0 < sizeof_T → ret ≠ this →
  objects w !! this = Some o → objects w !! ret = Some raw →
  ptr_ o = Ptr b off → heap w !! b = Some cs →
  0 ≤ off → off + size_ o ≤ Z.of_nat (length cs) →
  0 < size_ o → size_ o * sizeof_T < size_modulus →
  allocator w = Some b' :: ds → heap w !! b' = None →
  ∃ w', clone sizeof_T Elided ret this w = Returns tt w'.
Proof.
  intros Hs Hrt Ho Hraw Hp Hb Hoff Hlen Hn Hfit Hal Hb'.
  assert (b ≠ b') as Hbb by congruence.
  unfold clone. rewrite decide_False by done.
  rewrite (bind_Returns _ _ _ _ _ (SafePointer_default_run _ _ _ Hraw)).
  set (w0 := set_obj ret _ w).
  assert (objects w0 !! this = Some o) as Ho0
    by (unfold w0; by rewrite lookup_set_obj_ne).
  set (cs' := replicate (cells_of_bytes sizeof_T (to_size_t (size_ o * sizeof_T))) None
              : list (option T)).
  set (w1 := set_obj ret (mkSafePointer (Ptr b' 0) true (size_ o))
               (place b' cs' (decided w0))).
  assert (allocate sizeof_T (size_ o) ret w0 = Returns tt w1) as Hal1.
  { erewrite allocate_fresh; [|apply lookup_set_obj_eq|done|lia].
    by erewrite malloc_granted. }
  assert (objects w1 !! this = Some o) as Ho1.
  { unfold w1. rewrite lookup_set_obj_ne by done. simpl.
    by rewrite objects_decided. }
  assert (heap w1 = <[b' := cs']> (heap w)) as Hheap1.
  { unfold w1. simpl. by rewrite heap_decided. }
  cut (∃ w', (n ← get_size this;
              allocate sizeof_T n ret;;
              p ← get_ptr this;
              e ← ptr_add p n;
              q ← get_ptr ret;
              std_copy p e q) w0 = Returns tt w').
  { intros [w' Hw']. exists w'. unfold unwinding. by rewrite Hw'. }
  field_steps. rewrite (bind_Returns _ _ _ _ _ Hal1). field_steps. rewrite Hp.
  assert (ptr_add (Ptr b off) (size_ o) w1 = Returns (Ptr b (off + size_ o)) w1)
    as Hadd.
  { unfold ptr_add. rewrite Hheap1, lookup_insert_ne, Hb by done.
    by rewrite decide_True by lia. }
  rewrite (bind_Returns _ _ _ _ _ Hadd).
  erewrite bind_Returns by (eapply get_ptr_run; apply lookup_set_obj_eq).
  cbn [ptr_]. unfold std_copy. cbn [ptr_diff]. rewrite decide_True by done.
  cbn [lift_option]. rewrite bind_ret, decide_False by lia.
  cbn [in_span]. rewrite bool_decide_eq_false_2 by (intros [? _]; done).
  apply copy_loop_returns. intros i Hi. rewrite Hheap1. cbn [ptr_plus]. split.
  - rewrite cell_at_insert_ne by done. unfold cell_at.
    rewrite Hb, decide_True by lia. apply lookup_lt_is_Some. lia.
  - rewrite cell_at_insert_eq, decide_True by lia. apply lookup_lt_is_Some.
    unfold cs'. rewrite length_replicate, cells_of_bytes_exact by lia. lia.
Qed.

(** X18.  When the copy of its named return value is elided, a call
    [clone()] on an allocated buffer that returns has built, in the
    storage [ret], a buffer whose pointer is not the source's ([compare]
    is false), with the size of the source and, index by index, its
    cells; the fields and cells of the source are what they were, and
    they still are after [set_value], [fill] or [set_values] on the
    clone. *)
Theorem clone_contract ret this w w' o :
  0 < sizeof_T → objects w !! this = Some o → allocated_ o = true →
  clone sizeof_T Elided ret this w = Returns tt w' →
  ∃ o', objects w' !! ret = Some o' ∧
        objects w' !! this = Some o ∧
        compare ret this w' = Returns false w' ∧
        allocated_ o' = true ∧ size_ o' = size_ o ∧
        (∀ i, 0 ≤ i < size_ o →
           is_Some (elem w o i) ∧
           elem w' o' i = elem w o i ∧
           elem w' o i = elem w o i) ∧
        (∀ w'',
           (∃ v idx, set_value v idx ret w' = Returns tt w'') ∨
           (∃ v, fill v ret w' = Returns tt w'') ∨
           (∃ src_begin src_end,
              set_values2 src_begin src_end ret w' = Returns tt w'') →
           objects w'' !! this = Some o ∧
           ∀ i, 0 ≤ i < size_ o → elem w'' o i = elem w o i).
Proof.
  intros Hs Ho Ha Hc.
  destruct (clone_inv _ _ _ _ _ Hs Ho Hc)
    as (b & off & b' & Hrt & Hp & Hbb & Hb' & Hn & Hobj & Hcells & Hfr).
  set (o' := mkSafePointer (Ptr b' 0) true (size_ o)) in *.
  assert (objects w' !! ret = Some o') as Hret' by (by rewrite Hobj, lookup_insert_eq).
  assert (objects w' !! this = Some o) as Hthis' by (by rewrite Hobj, lookup_insert_ne).
  exists o'. split_and!; [done | done | | done | done | |].
  - unfold compare. field_steps. rewrite Hp. simpl.
    rewrite bool_decide_eq_false_2; [done | congruence].
  - intros i Hi. destruct (Hcells i Hi) as [Hsome Heq].
    unfold elem. rewrite Hp. simpl. replace (0 + i) with i by lia.
    split_and!; [done | done | by apply Hfr].
  - intros w'' Hmut.
    assert (objects w'' = objects w' ∧
            ∀ b'' x, b'' ≠ b' →
              cell_at (heap w'') (Ptr b'' x) = cell_at (heap w') (Ptr b'' x))
      as [Hobj'' Hfr''].
    { destruct Hmut as [(v & idx & H)|[(v & H)|(sb & se & H)]].
      - exact (set_value_frame _ _ _ _ _ o' b' 0 Hret' eq_refl H).
      - exact (fill_frame _ _ _ _ o' b' 0 Hret' eq_refl H).
      - exact (set_values2_frame _ _ _ _ _ o' b' 0 Hret' eq_refl H). }
    split; [by rewrite Hobj''|]. intros i Hi. unfold elem. rewrite Hp.
    cbn [ptr_plus]. rewrite Hfr'' by done. by apply Hfr.
Qed.

(** ** move *)

(** [move] between two distinct buffers: the pointer and the flag of the
    source go to the destination, the source is emptied, and the count of
    the destination is whatever [deallocate] left there.  The count of
    the source is not read. *)
Lemma move_run other this w ot oo :
  this ≠ other →
  objects w !! this = Some ot → objects w !! other = Some oo →
  (allocated_ ot = true → can_free w (ptr_ ot) = true) →
  move other this w =
    Returns tt
      (set_obj other empty_fields
         (set_obj this
            (mkSafePointer (ptr_ oo) (allocated_ oo)
               (if allocated_ ot then 0 else size_ ot))
            (if allocated_ ot then released (ptr_ ot) w else w))).
Proof.
  intros Hne Ht Ho Hf. unfold move. rewrite decide_True by done.
  destruct (allocated_ ot) eqn:Ha.
  - erewrite bind_Returns by (by apply deallocate_allocated; [| |apply Hf]).
    assert (objects (released (ptr_ ot) w) !! other = Some oo)
      by (by rewrite objects_released).
    by field_steps.
  - erewrite bind_Returns by (by eapply deallocate_not_allocated).
    field_steps. by destruct ot; simplify_eq/=.
Qed.

Lemma move_self this w : move this this w = Returns tt w.
Proof. unfold move. by rewrite decide_False by (intros H; by apply H). Qed.

(** ** Computations on the heap *)

Lemma keeps_objects_ret {A} (a : A) : keeps_objects (T:=T) (ret a).
Proof. by intros w. Qed.

Lemma keeps_objects_undefined {A} : keeps_objects (T:=T) (A:=A) undefined.
Proof. by intros w. Qed.

Lemma keeps_objects_bind {A B} (m : M A) (f : A → M B) :
  keeps_objects m → (∀ a, keeps_objects (f a)) → keeps_objects (bind m f).
Proof.
  intros Hm Hf w. unfold bind. specialize (Hm w).
  destruct (m w) as [a w1| |]; [|done..].
  specialize (Hf a w1). destruct (f a w1); [congruence | done..].
Qed.

Lemma keeps_objects_lift_option {A} (x : option A) : keeps_objects (T:=T) (lift_option x).
Proof. destruct x; [apply keeps_objects_ret | apply keeps_objects_undefined]. Qed.

Lemma keeps_objects_load p : keeps_objects (T:=T) (load p).
Proof. intros w. unfold load. by destruct (cell_at (heap w) p). Qed.

Lemma keeps_objects_store p c : keeps_objects (T:=T) (store p c).
Proof.
  intros w. unfold store. destruct p as [|b off]; [done|].
  destruct (heap w !! b); [|done]. by case_decide.
Qed.

Lemma keeps_objects_ptr_add p k : keeps_objects (T:=T) (ptr_add p k).
Proof.
  intros w. unfold ptr_add. destruct p as [|b off]; [by case_decide|].
  destruct (heap w !! b); [|done]. by case_decide.
Qed.

Lemma keeps_objects_realloc p bytes : keeps_objects (T:=T) (realloc sizeof_T p bytes).
Proof.
  intros w. destruct (realloc sizeof_T p bytes w) as [q w1|e w1|] eqn:Hr; [| |done].
  - by apply realloc_objects in Hr.
  - by apply realloc_no_throw in Hr.
Qed.

Lemma keeps_objects_malloc bytes : keeps_objects (T:=T) (malloc sizeof_T bytes).
Proof. apply (keeps_objects_realloc nullptr bytes). Qed.

Lemma keeps_objects_calloc num size : keeps_objects (calloc sizeof_T zero_T num size).
Proof.
  intros w. unfold calloc. rewrite next_decision_decided.
  destruct (fst (next_decision w)) as [b|]; [|apply objects_decided].
  destruct (heap (decided w) !! b); [apply objects_decided|].
  case_decide; apply objects_decided.
Qed.

Lemma keeps_objects_free p : keeps_objects (T:=T) (free p).
Proof.
  intros w. destruct (free p w) as [[] w1|e w1|] eqn:Hf; [| |done].
  - by apply free_objects in Hf.
  - unfold free in Hf. destruct p as [|b off]; [done|].
    destruct (heap w !! b); [|done]. by case_decide.
Qed.

Lemma keeps_objects_copy_loop (n : nat) src dst : keeps_objects (T:=T) (copy_loop n src dst).
Proof.
  revert src dst. induction n as [|k IH]; intros src dst; [apply keeps_objects_ret|].
  simpl. apply keeps_objects_bind; [apply keeps_objects_load|]. intros c.
  apply keeps_objects_bind; [apply keeps_objects_store|]. intros _. apply IH.
Qed.

Lemma keeps_objects_std_copy first last d : keeps_objects (T:=T) (std_copy first last d).
Proof.
  unfold std_copy. apply keeps_objects_bind; [apply keeps_objects_lift_option|]. intros n.
  case_decide; [apply keeps_objects_undefined|].
  destruct (in_span first last d); [apply keeps_objects_undefined|].
  apply keeps_objects_copy_loop.
Qed.

Lemma keeps_objects_fill_loop (n : nat) first v : keeps_objects (T:=T) (fill_loop n first v).
Proof.
  revert first. induction n as [|k IH]; intros first; [apply keeps_objects_ret|].
  simpl. apply keeps_objects_bind; [apply keeps_objects_store|]. intros _. apply IH.
Qed.

Lemma keeps_objects_std_fill first last v : keeps_objects (T:=T) (std_fill first last v).
Proof.
  unfold std_fill. apply keeps_objects_bind; [apply keeps_objects_lift_option|]. intros n.
  case_decide; [apply keeps_objects_undefined|]. apply keeps_objects_fill_loop.
Qed.

(** ** The invariant is kept by every call *)

Lemma all_consistent_objects w w' :
  objects w' = objects w → all_consistent w → all_consistent w'.
Proof. intros Hobj Hw a o. rewrite Hobj. apply Hw. Qed.

Lemma all_consistent_set_obj this o w :
  consistent o → all_consistent w → all_consistent (set_obj this o w).
Proof.
  intros Ho Hw a o'. unfold set_obj. simpl. rewrite lookup_insert.
  case_decide; [by intros [= <-] | apply Hw].
Qed.

Lemma leaves_bind {A B} (I : world → Prop) (m : M A) (f : A → M B) w :
  match m w with
  | Returns a w' => leaves I (f a w')
  | Throws _ w' => I w'
  | Undefined => True
  end →
  leaves I (bind m f w).
Proof. unfold bind. by destruct (m w). Qed.

Lemma leaves_bind_keeps_objects {A B} (I : world → Prop) (m : M A) (f : A → M B) w :
  keeps_objects m →
  (∀ a w', objects w' = objects w → leaves I (f a w')) →
  leaves I (bind m f w).
Proof.
  intros Hm Hf. apply leaves_bind. specialize (Hm w).
  destruct (m w) as [a w'| |]; [by apply Hf | done..].
Qed.

Lemma leaves_keeps_objects {A} (m : M A) w :
  keeps_objects m → all_consistent w → leaves all_consistent (m w).
Proof.
  intros Hm Hw. specialize (Hm w). destruct (m w) as [a w'| |]; [|done..].
  by apply (all_consistent_objects w).
Qed.

Lemma leaves_discard {A} (m : M A) w :
  keeps_objects m → all_consistent w → leaves all_consistent (discard m w).
Proof.
  intros Hm Hw. apply leaves_keeps_objects; [|done].
  apply keeps_objects_bind; [done|]. intros _. apply keeps_objects_ret.
Qed.

Lemma keeps_objects_read_obj this : keeps_objects (T:=T) (read_obj this).
Proof. intros w. unfold read_obj. by destruct (objects w !! this). Qed.

Lemma keeps_objects_get_ptr this : keeps_objects (T:=T) (get_ptr this).
Proof.
  apply keeps_objects_bind; [apply keeps_objects_read_obj|]. intros o. apply keeps_objects_ret.
Qed.

Lemma keeps_objects_get_allocated this : keeps_objects (T:=T) (get_allocated this).
Proof.
  apply keeps_objects_bind; [apply keeps_objects_read_obj|]. intros o. apply keeps_objects_ret.
Qed.

Lemma keeps_objects_get_size this : keeps_objects (T:=T) (get_size this).
Proof.
  apply keeps_objects_bind; [apply keeps_objects_read_obj|]. intros o. apply keeps_objects_ret.
Qed.

Lemma deallocate_leaves this w o :
  objects w !! this = Some o → all_consistent w →
  leaves (λ w', all_consistent w' ∧
                ∃ o', objects w' !! this = Some o' ∧ allocated_ o' = false ∧
                      ∀ a, a ≠ this → objects w' !! a = objects w !! a)
    (deallocate this w).
Proof.
  intros Ho Hw. rewrite (deallocate_run _ _ _ Ho). destruct (allocated_ o) eqn:Ha.
  - pose proof (keeps_objects_free (ptr_ o) w) as Hf.
    destruct (free (ptr_ o) w) as [[] w1| |]; [|done..]. simpl. split.
    + apply all_consistent_set_obj; [done|]. by apply (all_consistent_objects w).
    + exists empty_fields. split_and!; [solve_lookup | done |].
      intros a Hne. rewrite lookup_insert_ne by done. by rewrite Hf.
  - simpl. split; [done|]. by exists o.
Qed.


Lemma allocate_leaves n this w o :
  objects w !! this = Some o → all_consistent w →
  leaves all_consistent (allocate sizeof_T n this w).
Proof.
  intros Ho Hw. destruct (decide (n = 0)) as [->|Hn]; [by rewrite allocate_zero|].
  destruct (allocated_ o) eqn:Ha.
  - rewrite (allocate_owned _ _ _ _ Ho Ha Hn), (reallocate_owned _ _ _ _ Ho Ha Hn).
    pose proof (keeps_objects_realloc (ptr_ o) (to_size_t (n * sizeof_T)) w) as Hr.
    destruct (realloc _ _ _ _) as [q w1| |]; [|done..].
    destruct (is_null q); simpl.
    + by apply (all_consistent_objects w).
    + apply all_consistent_set_obj; [done|]. by apply (all_consistent_objects w).
  - rewrite (allocate_fresh _ _ _ _ Ho Ha Hn).
    pose proof (keeps_objects_malloc (to_size_t (n * sizeof_T)) w) as Hm.
    destruct (malloc _ _ _) as [q w1| |]; [|done..].
    destruct (is_null q); simpl.
    + apply all_consistent_set_obj; [|by apply (all_consistent_objects w)].
      intros _. split; [done|]. by apply (Hw _ _ Ho).
    + apply all_consistent_set_obj; [done|]. by apply (all_consistent_objects w).
Qed.

Lemma reallocate_zero this w :
  reallocate sizeof_T 0 this w =
    Throws (invalid_argument "Cannot reallocate to 0 elements") w.
Proof. by rewrite reallocate_unfold. Qed.

Lemma reallocate_leaves n this w o :
  objects w !! this = Some o → all_consistent w →
  leaves all_consistent (reallocate sizeof_T n this w).
Proof.
  intros Ho Hw. destruct (decide (n = 0)) as [->|Hn]; [by rewrite reallocate_zero|].
  destruct (allocated_ o) eqn:Ha.
  - rewrite <- (allocate_owned _ _ _ _ Ho Ha Hn). by eapply allocate_leaves.
  - rewrite (reallocate_fresh _ _ _ _ Ho Ha Hn). by eapply allocate_leaves.
Qed.

Lemma leaves_weaken {A} (I J : world → Prop) (r : outcome A) :
  (∀ w, I w → J w) → leaves I r → leaves J r.
Proof. intros HIJ. destruct r; simpl; auto. Qed.

Lemma callocate_leaves num size this w o :
  objects w !! this = Some o → all_consistent w →
  leaves all_consistent (callocate sizeof_T zero_T num size this w).
Proof.
  intros Ho Hw. unfold callocate. case_decide; [done|]. field_steps.
  assert (leaves (λ w', all_consistent w' ∧
                   ∃ o', objects w' !! this = Some o' ∧ allocated_ o' = false)
            ((if allocated_ o then deallocate this else ret tt) w)) as Hd.
  { destruct (allocated_ o) eqn:Ha.
    - eapply leaves_weaken; [|by eapply deallocate_leaves].
      intros w' (? & o' & ? & ? & _). eauto.
    - simpl. eauto. }
  apply leaves_bind. revert Hd.
  match goal with
  | |- leaves _ ?r → _ => destruct r as [[] w1| |]
  end; simpl; [|by intros [? _] | done].
  intros (Hw1 & o' & Ho' & Ha').
  apply leaves_bind_keeps_objects; [apply keeps_objects_calloc|]. intros q w2 Hobj2.
  assert (objects w2 !! this = Some o') as Ho2 by (by rewrite Hobj2).
  field_steps. destruct (is_null q) eqn:Hq; simpl.
  - apply all_consistent_set_obj; [|by apply (all_consistent_objects w1)].
    destruct q; [|done]. intros _. split; [done|]. by apply (Hw1 _ _ Ho').
  - field_steps. simpl.
    apply all_consistent_set_obj; [done|]. by apply (all_consistent_objects w1).
Qed.

Lemma clear_leaves doDeallocate this w o :
  objects w !! this = Some o → all_consistent w →
  leaves all_consistent (clear doDeallocate this w).
Proof.
  intros Ho Hw. destruct doDeallocate.
  - eapply leaves_weaken; [|by eapply deallocate_leaves]. by intros w' [? _].
  - rewrite (clear_false_run _ _ _ Ho). simpl. by apply all_consistent_set_obj.
Qed.

Lemma resize_leaves n this w o :
  objects w !! this = Some o → all_consistent w →
  leaves all_consistent (resize sizeof_T n this w).
Proof.
  intros Ho Hw. rewrite (resize_run _ _ _ _ Ho). repeat case_decide.
  - done.
  - eapply leaves_weaken; [|by eapply deallocate_leaves]. by intros w' [? _].
  - by eapply reallocate_leaves.
Qed.

Lemma fill_range_leaves first last v this w o :
  objects w !! this = Some o → all_consistent w →
  leaves all_consistent (fill_range first last v this w).
Proof.
  intros Ho Hw. unfold fill_range. field_steps.
  destruct (negb (allocated_ o) || is_null (ptr_ o)); [done|].
  by apply leaves_keeps_objects; [apply keeps_objects_std_fill|].
Qed.

Lemma fill_leaves v this w o :
  objects w !! this = Some o → all_consistent w →
  leaves all_consistent (fill v this w).
Proof.
  intros Ho Hw. unfold fill, begin. field_steps.
  apply leaves_bind. rewrite (end_run _ _ _ Ho).
  pose proof (keeps_objects_ptr_add (ptr_ o) (size_ o) w) as Hadd.
  destruct (ptr_add (ptr_ o) (size_ o) w) as [e w1| |]; [|done..].
  assert (objects w1 !! this = Some o) by (by rewrite Hadd).
  eapply fill_range_leaves; [done|]. by apply (all_consistent_objects w).
Qed.

Lemma set_value_leaves v idx this w o :
  objects w !! this = Some o → all_consistent w →
  leaves all_consistent (set_value v idx this w).
Proof.
  intros Ho Hw. unfold set_value. field_steps.
  destruct (negb (allocated_ o) || is_null (ptr_ o)); [done|].
  destruct (ptr_ o); [done|]. by apply leaves_keeps_objects; [apply keeps_objects_store|].
Qed.

Lemma set_values_leaves src_begin src_end dst_begin this w o :
  objects w !! this = Some o → all_consistent w →
  leaves all_consistent (set_values src_begin src_end dst_begin this w).
Proof.
  intros Ho Hw. unfold set_values. field_steps.
  destruct (negb (allocated_ o) || is_null (ptr_ o)); [done|].
  destruct (is_null src_begin || is_null src_end || is_null dst_begin); [done|].
  apply leaves_bind_keeps_objects; [apply keeps_objects_lift_option|]. intros d_src w1 Hobj1.
  apply leaves_bind_keeps_objects; [apply keeps_objects_lift_option|]. intros d_dst w2 Hobj2.
  assert (objects w2 !! this = Some o) by (by rewrite Hobj2, Hobj1).
  field_steps. case_decide.
  - simpl. apply (all_consistent_objects w); [congruence | done].
  - apply leaves_keeps_objects; [apply keeps_objects_std_copy|].
    apply (all_consistent_objects w); [congruence | done].
Qed.

Lemma set_values2_leaves src_begin src_end this w o :
  objects w !! this = Some o → all_consistent w →
  leaves all_consistent (set_values2 src_begin src_end this w).
Proof.
  intros Ho Hw. unfold set_values2, begin. field_steps. by eapply set_values_leaves.
Qed.

Lemma get_values_leaves src_begin src_end dst_begin this w o :
  objects w !! this = Some o → all_consistent w →
  leaves all_consistent (get_values src_begin src_end dst_begin this w).
Proof.
  intros Ho Hw. unfold get_values. field_steps.
  destruct (negb (allocated_ o) || is_null (ptr_ o)); [done|].
  destruct (is_null src_begin || is_null src_end || is_null dst_begin); [done|].
  apply leaves_bind_keeps_objects; [apply keeps_objects_lift_option|]. intros d_src w1 Hobj1.
  apply leaves_keeps_objects; [apply keeps_objects_std_copy|].
  by apply (all_consistent_objects w).
Qed.

Lemma get_values1_leaves dst_begin this w o :
  objects w !! this = Some o → all_consistent w →
  leaves all_consistent (get_values1 dst_begin this w).
Proof.
  intros Ho Hw. unfold get_values1, begin. field_steps.
  apply leaves_bind. rewrite (end_run _ _ _ Ho).
  pose proof (keeps_objects_ptr_add (ptr_ o) (size_ o) w) as Hadd.
  destruct (ptr_add (ptr_ o) (size_ o) w) as [e w1| |]; [|done..].
  assert (objects w1 !! this = Some o) by (by rewrite Hadd).
  eapply get_values_leaves; [done|]. by apply (all_consistent_objects w).
Qed.

Lemma swap_leaves other this w ot oo :
  objects w !! this = Some ot → objects w !! other = Some oo → all_consistent w →
  leaves all_consistent (swap other this w).
Proof.
  intros Ht Ho Hw. unfold swap, swap_field.
  destruct (decide (this = other)) as [->|Hne].
  - assert (ot = oo) as -> by congruence.
    field_steps. simpl. apply all_consistent_set_obj; [|done].
    destruct oo. by apply (Hw _ _ Ho).
  - field_steps. simpl.
    intros a x Hx. simpl in Hx. rewrite !lookup_insert in Hx.
    repeat case_decide; simplify_eq.
    + destruct ot. by apply (Hw _ _ Ht).
    + destruct oo. by apply (Hw _ _ Ho).
    + by apply (Hw _ _ Hx).
Qed.

Lemma set_leaves ptr this w o :
  objects w !! this = Some o → all_consistent w →
  leaves all_consistent (set ptr this w).
Proof.
  intros Ho Hw. unfold set. field_steps. destruct (allocated_ o) eqn:Ha.
  - apply leaves_bind. pose proof (deallocate_leaves _ _ _ Ho Hw) as Hd.
    destruct (deallocate this w) as [[] w1| |]; simpl in Hd; [|by destruct Hd | done].
    destruct Hd as (Hw1 & o' & Ho' & Ha' & _). field_steps. simpl.
    apply all_consistent_set_obj; [|done]. intros Hp. simpl in *.
    split; [by destruct ptr | by apply (Hw1 _ _ Ho')].
  - rewrite bind_ret. field_steps. simpl.
    apply all_consistent_set_obj; [|done]. intros Hp. simpl in *.
    split; [by destruct ptr | by apply (Hw _ _ Ho)].
Qed.

Lemma copy_leaves other n this w o oo :
  objects w !! this = Some o → objects w !! other = Some oo → all_consistent w →
  leaves all_consistent (copy sizeof_T other n this w).
Proof.
  intros Ho Hoo Hw. unfold copy, is_allocated. field_steps.
  destruct (allocated_ oo); [|done]. simpl.
  apply leaves_bind. pose proof (allocate_leaves n _ _ _ Ho Hw) as Hal.
  destruct (allocate sizeof_T n this w) as [[] w1| |]; simpl in Hal; [|done..].
  apply leaves_keeps_objects; [|done].
  apply keeps_objects_bind; [apply keeps_objects_get_ptr|]. intros op.
  apply keeps_objects_bind; [apply keeps_objects_ptr_add|]. intros oe.
  apply keeps_objects_bind; [apply keeps_objects_get_ptr|]. intros p.
  apply keeps_objects_std_copy.
Qed.

Lemma move_leaves other this w ot oo :
  objects w !! this = Some ot → objects w !! other = Some oo → all_consistent w →
  leaves all_consistent (move other this w).
Proof.
  intros Ht Ho Hw. unfold move. case_decide as Hne; [|done].
  apply leaves_bind. pose proof (deallocate_leaves _ _ _ Ht Hw) as Hd.
  destruct (deallocate this w) as [[] w1| |]; simpl in Hd; [|by destruct Hd | done].
  destruct Hd as (Hw1 & o' & Ho' & Ha' & Hfr).
  assert (objects w1 !! other = Some oo) as Ho1 by (by rewrite Hfr).
  field_steps. simpl.
  apply all_consistent_set_obj; [done|].
  apply all_consistent_set_obj; [|done]. intros Ha. simpl in *.
  split; [by apply (Hw _ _ Ho) | by apply (Hw1 _ _ Ho')].
Qed.

Lemma assign_leaves other this w o oo :
  objects w !! this = Some o → objects w !! other = Some oo → all_consistent w →
  leaves all_consistent (assign sizeof_T other this w).
Proof.
  intros Ho Hoo Hw. unfold assign. case_decide as Hne; [done|].
  apply leaves_bind. pose proof (deallocate_leaves _ _ _ Ho Hw) as Hd.
  destruct (deallocate this w) as [[] w1| |]; simpl in Hd; [|by destruct Hd | done].
  destruct Hd as (Hw1 & o' & Ho' & Ha' & Hfr).
  assert (objects w1 !! other = Some oo) as Ho1 by (by rewrite Hfr).
  field_steps. apply leaves_bind.
  pose proof (allocate_leaves (size_ oo) _ _ _ Ho' Hw1) as Hal.
  destruct (allocate sizeof_T (size_ oo) this w1) as [[] w2| |];
    simpl in Hal; [|done..].
  apply leaves_keeps_objects; [|done].
  apply keeps_objects_bind; [apply keeps_objects_get_ptr|]. intros op.
  apply keeps_objects_bind; [apply keeps_objects_ptr_add|]. intros oe.
  apply keeps_objects_bind; [apply keeps_objects_get_ptr|]. intros p.
  apply keeps_objects_std_copy.
Qed.

(** X15.  Every call a client can make on an object, with any arguments,
    leaves all the objects consistent when they were, whether it returns
    or throws. *)
Theorem invoke_keeps_consistent c this w :
  is_Some (objects w !! this) →
  (∀ other, other_of c = Some other → is_Some (objects w !! other)) →
  all_consistent w →
  leaves all_consistent (invoke sizeof_T zero_T c this w).
Proof.
  intros [o Ho] Hother Hw.
  destruct c; simpl;
    try (destruct (Hother other eq_refl) as [oo Hoo]).
  - by eapply allocate_leaves.
  - by eapply callocate_leaves.
  - by eapply reallocate_leaves.
  - eapply leaves_weaken; [|by eapply deallocate_leaves]. by intros w' [? _].
  - apply leaves_discard; [apply keeps_objects_get_allocated | done].
  - apply leaves_discard; [apply keeps_objects_get_ptr | done].
  - apply leaves_discard; [apply keeps_objects_get_size | done].
  - apply leaves_discard; [|done].
    apply keeps_objects_bind; [apply keeps_objects_get_allocated|]. intros a.
    apply keeps_objects_bind; [apply keeps_objects_get_size|]. intros n.
    apply keeps_objects_ret.
  - by eapply clear_leaves.
  - by eapply resize_leaves.
  - by eapply fill_range_leaves.
  - by eapply fill_leaves.
  - by eapply swap_leaves.
  - apply leaves_discard; [|done].
    apply keeps_objects_bind; [apply keeps_objects_get_ptr|]. intros p.
    apply keeps_objects_bind; [apply keeps_objects_get_ptr|]. intros q.
    apply keeps_objects_ret.
  - by eapply set_leaves.
  - by eapply copy_leaves.
  - by eapply move_leaves.
  - apply leaves_discard; [apply keeps_objects_get_ptr | done].
  - apply leaves_discard; [|done].
    apply keeps_objects_bind; [apply keeps_objects_get_ptr|]. intros p.
    apply keeps_objects_bind; [apply keeps_objects_get_size|]. intros n.
    apply keeps_objects_ptr_add.
  - by eapply set_value_leaves.
  - by eapply set_values_leaves.
  - by eapply set_values2_leaves.
  - by eapply get_values_leaves.
  - by eapply get_values1_leaves.
  - by eapply assign_leaves.
Qed.

(** The sized constructor and [clone], its copy elided, build consistent
    objects, whatever the storage held; the default constructor does so
    only in a storage whose [size_] bits are 0. *)
Lemma SafePointer_sized_consistent n this w w' :
  (∀ a o, a ≠ this → objects w !! a = Some o → consistent o) →
  SafePointer_sized sizeof_T n this w = Returns tt w' → all_consistent w'.
Proof.
  intros Hw. unfold SafePointer_sized.
  destruct (objects w !! this) as [raw|] eqn:Hraw;
    [|by rewrite (bind_Undefined _ _ _ (SafePointer_default_undefined _ _ Hraw))].
  rewrite (bind_Returns _ _ _ _ _ (SafePointer_default_run _ _ _ Hraw)).
  destruct (decide (n = 0)) as [->|Hn]; [by rewrite allocate_zero|].
  erewrite allocate_fresh; [|solve_lookup|done|done]. cbn [size_].
  match goal with
  | |- context [malloc ?s ?b ?w0] =>
      pose proof (keeps_objects_malloc b w0) as Hm; destruct (malloc s b w0) as [q w1| |]
  end; [|done..].
  destruct (is_null q); [done|]. intros [= <-].
  intros a o. simpl. rewrite lookup_insert. case_decide; [by intros [= <-]|].
  rewrite Hm. simpl. rewrite lookup_insert_ne by done. by apply Hw.
Qed.

Lemma SafePointer_default_consistent this w raw :
  objects w !! this = Some raw →
  ∃ o', SafePointer_default this w = Returns tt (set_obj this o' w) ∧
        (consistent o' ↔ size_ raw = 0).
Proof.
  intros Hraw. eexists. split; [by apply SafePointer_default_run|].
  unfold consistent. simpl. naive_solver.
Qed.

Lemma clone_consistent ret this w w' o :
  0 < sizeof_T → objects w !! this = Some o →
  (∀ a x, a ≠ ret → objects w !! a = Some x → consistent x) →
  clone sizeof_T Elided ret this w = Returns tt w' → all_consistent w'.
Proof.
  intros Hs Ho Hw Hc.
  destruct (clone_inv _ _ _ _ _ Hs Ho Hc)
    as (b & off & b' & Hrt & Hp & Hbb & Hb' & Hn & Hobj & _).
  intros a x. rewrite Hobj, lookup_insert. case_decide; [by intros [= <-]|].
  by apply Hw.
Qed.

(** * The methods the statements above leave out *)

(** ** fill *)

Lemma fill_loop_cells (n : nat) first v w w' :
  fill_loop n first v w = Returns tt w' →
  ∀ i, 0 ≤ i < Z.of_nat n → cell_at (heap w') (ptr_plus first i) = Some (Some v).
Proof.
  revert first w. induction n as [|k IH]; intros first w; [intros; lia|].
  simpl. intros H i Hi.
  apply bind_inv_Returns in H as ([] & w1 & (Hnn & _ & _ & Hst)%store_inv & H).
  destruct (decide (i = 0)) as [->|Hi0].
  - rewrite ptr_plus_0. apply fill_loop_frame in H as [_ Hfr]. rewrite Hfr.
    + rewrite Hst. by rewrite decide_True.
    + intros j Hj. rewrite ptr_plus_next. rewrite <- (ptr_plus_0 first) at 1.
      intros E. apply ptr_plus_inj in E; [lia | done].
  - specialize (IH _ _ H (i - 1) ltac:(lia)). rewrite ptr_plus_next in IH.
    by replace (i - 1 + 1) with i in IH by lia.
Qed.

Lemma fill_loop_returns (n : nat) first v w :
  (∀ i, 0 ≤ i < Z.of_nat n → is_Some (cell_at (heap w) (ptr_plus first i))) →
  ∃ w', fill_loop n first v w = Returns tt w'.
Proof.
  revert first w. induction n as [|k IH]; intros first w Hcells; [by eexists|].
  simpl. pose proof (Hcells 0 ltac:(lia)) as H0. rewrite ptr_plus_0 in H0.
  destruct (store_returns first (Some v) w H0) as [w1 Hs].
  rewrite (bind_Returns _ _ _ _ _ Hs).
  apply store_inv in Hs as (_ & _ & _ & Hst).
  apply IH. intros i Hi. rewrite ptr_plus_next, Hst.
  case_decide; [done|]. apply Hcells. lia.
Qed.

(** What [fill(value)] is on a buffer whose pointer is not null: the test
    of [fill_range] passes or throws, and [std::fill] runs from [ptr_] over
    [size_] cells. *)
Lemma fill_run v this w o b off :
  objects w !! this = Some o → ptr_ o = Ptr b off →
  fill v this w =
    match ptr_add (Ptr b off) (size_ o) w with
    | Returns e _ =>
        if allocated_ o then std_fill (Ptr b off) e v w
        else Throws (runtime_error "Cannot fill: memory is not allocated") w
    | Throws e w1 => Throws e w1
    | Undefined => Undefined
    end.
Proof.
  intros Ho Hp. unfold fill, begin, fill_range. field_steps.
  unfold bind at 1. rewrite (end_run _ _ _ Ho), Hp.
  destruct (ptr_add (Ptr b off) (size_ o) w) as [e w1| |] eqn:Hadd; [|done..].
  apply ptr_add_inv in Hadd as [-> _]. field_steps. rewrite Hp.
  by destruct (allocated_ o).
Qed.

(** X1.  [fill(value)]: when it returns, every element below [size()] holds
    the value, the fields are what they were and no cell outside the
    buffer's span has changed; and it does return on an allocated buffer
    whose region holds [size()] cells from [ptr_] on. *)
Theorem fill_writes_all v this w o :
  objects w !! this = Some o →
  (∀ w', fill v this w = Returns tt w' →
     objects w' = objects w ∧
     (∀ i, 0 ≤ i < size_ o → elem w' o i = Some (Some v)) ∧
     (∀ q, (∀ i, 0 ≤ i < size_ o → q ≠ ptr_plus (ptr_ o) i) →
           cell_at (heap w') q = cell_at (heap w) q)) ∧
  (allocated_ o = true →
   ∀ b off cs, ptr_ o = Ptr b off → heap w !! b = Some cs →
     0 ≤ off → 0 ≤ size_ o → off + size_ o ≤ Z.of_nat (length cs) →
     ∃ w', fill v this w = Returns tt w').
Proof.
  intros Ho. split.
  - intros w' H. destruct (ptr_ o) as [|b off] eqn:Hp.
    { revert H. unfold fill, begin, fill_range. field_steps.
      intros H. apply bind_inv_Returns in H as (e & w1 & He & H).
      rewrite (end_run _ _ _ Ho) in He. apply ptr_add_inv in He as [-> _].
      revert H. field_steps. rewrite Hp. by rewrite orb_true_r. }
    rewrite (fill_run _ _ _ _ _ _ Ho Hp) in H.
    destruct (ptr_add (Ptr b off) (size_ o) w) as [e w1| |] eqn:Hadd; [|done..].
    apply ptr_add_inv in Hadd as [-> [(? & _)|(b1 & off1 & cs & [= <- <-] & Hb & Hbound & ->)]];
      [done|].
    destruct (allocated_ o); [|done]. unfold std_fill in H.
    cbn [ptr_diff] in H. rewrite decide_True in H by done.
    cbn [lift_option] in H. rewrite bind_ret in H.
    replace (off + size_ o - off) with (size_ o) in H by lia.
    case_decide; [done|].
    pose proof (fill_loop_frame _ _ _ _ _ H) as [Hobj Hfr].
    split_and!; [done | |].
    + intros i Hi. unfold elem. rewrite Hp.
      apply (fill_loop_cells _ _ _ _ _ H). lia.
    + intros q Hq. apply Hfr. intros i Hi. apply Hq. lia.
  - intros Ha b off cs Hp Hb Hoff Hn Hlen.
    rewrite (fill_run _ _ _ _ _ _ Ho Hp), Ha. unfold ptr_add.
    rewrite Hb, decide_True by lia. unfold std_fill. cbn [ptr_diff].
    rewrite decide_True by done. cbn [lift_option]. rewrite bind_ret.
    rewrite decide_False by lia. apply fill_loop_returns.
    intros i Hi. cbn [ptr_plus]. unfold cell_at. rewrite Hb, decide_True by lia.
    apply lookup_lt_is_Some. lia.
Qed.

(** X2.  [fill] never writes through a buffer that is not marked allocated
    or whose pointer is null: the three-argument form throws the
    not-allocated error whatever the span it is given, and so does
    [fill(value)] on a buffer with a null pointer and a count of 0 (an
    empty buffer, or one after [clear(false)]); nothing changes. *)
Theorem fill_throws_without_region v this w o :
  objects w !! this = Some o →
  allocated_ o = false ∨ ptr_ o = nullptr →
  (∀ first last,
     ∃ e, fill_range first last v this w = Throws e w ∧ kind_of e = NotAllocated) ∧
  (ptr_ o = nullptr → size_ o = 0 →
   ∃ e, fill v this w = Throws e w ∧ kind_of e = NotAllocated).
Proof.
  intros Ho Hna.
  assert (negb (allocated_ o) || is_null (ptr_ o) = true) as Hcheck.
  { destruct Hna as [-> | ->]; [done | by rewrite orb_true_r]. }
  split.
  - intros first last.
    exists (runtime_error "Cannot fill: memory is not allocated").
    split; [|done]. unfold fill_range. field_steps. by rewrite Hcheck.
  - intros Hp Hn. exists (runtime_error "Cannot fill: memory is not allocated").
    split; [|done]. unfold fill, begin, fill_range. field_steps.
    unfold bind at 1. rewrite (end_run _ _ _ Ho), Hp, Hn. simpl.
    field_steps. rewrite Hp. by rewrite orb_true_r.
Qed.

(** ** swap *)

Lemma world_eq w w' :
  objects w = objects w' → heap w = heap w' → allocator w = allocator w' → w = w'.
Proof. destruct w, w'. simpl. by intros -> -> ->. Qed.

Lemma set_obj_same this o w : objects w !! this = Some o → set_obj this o w = w.
Proof. intros H. destruct w. unfold set_obj. simpl in *. by rewrite insert_id. Qed.

Lemma swap_run other this w ot oo :
  objects w !! this = Some ot → objects w !! other = Some oo →
  swap other this w = Returns tt (set_obj other ot (set_obj this oo w)).
Proof.
  intros Ht Ho. unfold swap, swap_field.
  destruct (decide (this = other)) as [->|Hne].
  - assert (ot = oo) as -> by congruence. field_steps. by destruct oo.
  - field_steps. f_equal. apply world_eq; [|done..]. simpl.
    apply map_eq. intros a. rewrite !lookup_insert.
    repeat case_decide; simplify_eq; by destruct ot, oo.
Qed.

(** X3.  [swap] always returns: each buffer ends with the three fields of
    the other, no other object, no cell of the heap and no decision of the
    allocator is touched, and swapping again gives back the world as it
    was.  Swapping a buffer with itself changes nothing. *)
Theorem swap_exchanges other this w ot oo :
  objects w !! this = Some ot → objects w !! other = Some oo →
  ∃ w', swap other this w = Returns tt w' ∧
        objects w' !! this = Some oo ∧
        objects w' !! other = Some ot ∧
        (∀ a, a ≠ this → a ≠ other → objects w' !! a = objects w !! a) ∧
        heap w' = heap w ∧ allocator w' = allocator w ∧
        swap other this w' = Returns tt w ∧
        (this = other → w' = w).
Proof.
  intros Ht Ho. eexists. split; [by apply swap_run|].
  destruct (decide (this = other)) as [->|Hne].
  - assert (ot = oo) as -> by congruence.
    rewrite set_obj_set_obj, (set_obj_same _ _ _ Ho).
    split_and!; try done. by rewrite (swap_run _ _ _ _ _ Ho Ho),
      set_obj_set_obj, (set_obj_same _ _ _ Ho).
  - split_and!; try done.
    + rewrite lookup_set_obj_ne by done. apply lookup_set_obj_eq.
    + apply lookup_set_obj_eq.
    + intros a Hat Hao. by rewrite !lookup_set_obj_ne.
    + erewrite swap_run;
        [|rewrite lookup_set_obj_ne by done; apply lookup_set_obj_eq
         |apply lookup_set_obj_eq].
      f_equal. apply world_eq; [|done..]. simpl.
      apply map_eq. intros a. rewrite !lookup_insert.
      repeat case_decide; by simplify_eq.
Qed.

(** ** copy and assignment *)

Lemma length_resize_cells (k : nat) (cs : list (option T)) :
  length (resize_cells k cs) = k.
Proof. unfold resize_cells. rewrite length_app, length_take, length_replicate. lia. Qed.

(** What a call of [allocate] that returns has done, on a buffer that was
    allocated or not: the buffer owns a block [b'] of the size asked for,
    and every other block that is live afterwards is as it was. *)
Lemma allocate_inv n this w w1 o :
  objects w !! this = Some o → allocate sizeof_T n this w = Returns tt w1 →
  n ≠ 0 ∧
  ∃ b' cs',
    objects w1 = <[this := mkSafePointer (Ptr b' 0) true n]> (objects w) ∧
    heap w1 !! b' = Some cs' ∧
    length cs' = cells_of_bytes sizeof_T (to_size_t (n * sizeof_T)) ∧
    ∀ b'' x, b'' ≠ b' → heap w1 !! b'' = Some x → heap w !! b'' = Some x.
Proof.
  intros Ho H. destruct (decide (n = 0)) as [->|Hn]; [by rewrite allocate_zero in H|].
  split; [done|]. destruct (allocated_ o) eqn:Ha.
  - rewrite (allocate_owned _ _ _ _ Ho Ha Hn), (reallocate_owned _ _ _ _ Ho Ha Hn) in H.
    destruct (realloc _ _ _ _) as [q w2| |] eqn:Hr; [|done..].
    destruct q as [|bq oq]; [done|]. simpl in H. injection H as <-.
    destruct (realloc_defined _ _ _ _ _ Hr) as [Hp|(b & cs & Hp & Hb)];
      rewrite Hp in Hr;
      [|assert (to_size_t (n * sizeof_T) ≠ 0) as Hbytes
          by (intros E; by rewrite E, (realloc_zero _ _ _ Hb) in Hr)].
    + simpl in Hr.
      destruct (malloc_cases (to_size_t (n * sizeof_T)) w) as [E|(b & _ & Hb & E)];
        rewrite E in Hr; simplify_eq.
      eexists _, _. simpl. rewrite objects_decided, heap_decided.
      split_and!; [done | apply lookup_insert_eq | apply length_replicate |].
      intros b'' x Hne. by rewrite lookup_insert_ne.
    + destruct (realloc_cases _ _ _ _ Hb Hbytes) as [E|[E|(b' & Hbb & Hb' & E)]];
        rewrite E in Hr; simplify_eq;
        eexists _, _; simpl; rewrite ?objects_decided, ?heap_decided;
        (split_and!;
         [done | apply lookup_insert_eq | apply length_resize_cells |]).
      * intros b'' x Hne. by rewrite lookup_insert_ne.
      * intros b'' x Hne. rewrite lookup_insert_ne by done.
        rewrite lookup_delete. by case_decide.
  - rewrite (allocate_fresh _ _ _ _ Ho Ha Hn) in H.
    destruct (malloc_cases (to_size_t (n * sizeof_T)) w) as [E|(b & _ & Hb & E)];
      rewrite E in H; [done|].
    simpl in H. injection H as <-.
    eexists _, _. simpl. rewrite objects_decided, heap_decided.
    split_and!; [done | apply lookup_insert_eq | apply length_replicate |].
    intros b'' x Hne. by rewrite lookup_insert_ne.
Qed.

(** The copy that ends [copy] and [operator=], once [allocate] has given
    the destination its block [b']: the source points into another live
    block, its first [n] cells are now those of [b'], and no cell outside
    [b'] has changed. *)
Lemma copy_elements_inv other n this w1 w' oo b' cs' :
  0 < sizeof_T → n ≠ 0 →
  objects w1 !! other = Some oo →
  objects w1 !! this = Some (mkSafePointer (Ptr b' 0) true n) →
  heap w1 !! b' = Some cs' →
  length cs' = cells_of_bytes sizeof_T (to_size_t (n * sizeof_T)) →
  (op ← get_ptr other;
   oe ← ptr_add op n;
   p ← get_ptr this;
   std_copy op oe p) w1 = Returns tt w' →
  ∃ b off,
    ptr_ oo = Ptr b off ∧ b ≠ b' ∧ 0 < n ∧ objects w' = objects w1 ∧
    (∀ i, 0 ≤ i < n →
       is_Some (cell_at (heap w1) (Ptr b (off + i))) ∧
       cell_at (heap w') (Ptr b' i) = cell_at (heap w1) (Ptr b (off + i))) ∧
    (∀ b'' x, b'' ≠ b' →
       cell_at (heap w') (Ptr b'' x) = cell_at (heap w1) (Ptr b'' x)).
Proof.
  intros Hs Hn Hoo Hthis Hb' Hlen. field_steps.
  intros H. apply bind_inv_Returns in H as (e & w2 & [-> Hadd]%ptr_add_inv & H).
  destruct Hadd as [(_ & ? & _)|(b & off & cs1 & Hp & Hb & Hbound & ->)]; [done|].
  revert H. field_steps.
  intros (n' & Hn' & Hn0 & Hspan & Hobj & _ & Hcells & Hfr)%std_copy_inv.
  rewrite Hp in Hn', Hspan, Hcells. simpl in Hn'.
  rewrite decide_True in Hn' by done. injection Hn' as <-.
  replace (off + n - off) with n in * by lia.
  assert (b ≠ b') as Hbb.
  { intros ->. rewrite Hb' in Hb. injection Hb as <-.
    pose proof (cells_of_bytes_le n Hs Hn0) as Hle.
    destruct (Hcells 0 ltac:(lia)) as [[c Hc] _].
    simpl in Hc. rewrite Hb' in Hc. case_decide; [|done].
    simpl in Hspan. apply bool_decide_eq_false in Hspan. apply Hspan. lia. }
  exists b, off. split_and!; [done | done | lia | done | |].
  - intros i Hi. destruct (Hcells i Hi) as [Hsome Heq]. cbn [ptr_plus] in *.
    by replace (0 + i) with i in Heq by lia.
  - intros b'' x Hne. apply Hfr. intros i _. simpl. congruence.
Qed.

(** X4.  [copy(other, n)] between two distinct buffers: when [other] is not
    marked allocated it throws the not-allocated error and changes
    nothing; when it returns, the destination is allocated with
    [size() == n], owns a region other than the source's ([compare] is
    false), and its first [n] elements are the first [n] elements of
    [other], which is left as it was. *)
Theorem copy_contract other n this w o oo :
  0 < sizeof_T → this ≠ other →
  objects w !! this = Some o → objects w !! other = Some oo →
  (allocated_ oo = false →
   ∃ e, copy sizeof_T other n this w = Throws e w ∧ kind_of e = NotAllocated) ∧
  (∀ w', copy sizeof_T other n this w = Returns tt w' →
     ∃ o', objects w' !! this = Some o' ∧
           allocated_ o' = true ∧ size_ o' = n ∧
           objects w' !! other = Some oo ∧
           compare other this w' = Returns false w' ∧
           ∀ i, 0 ≤ i < n →
             is_Some (elem w oo i) ∧
             elem w' o' i = elem w oo i ∧
             elem w' oo i = elem w oo i).
Proof.
  intros Hs Hne Ho Hoo. unfold copy, is_allocated. field_steps. split.
  - intros ->. exists (runtime_error "Cannot copy from an unallocated SafePointer").
    by split.
  - intros w'. destruct (allocated_ oo); [|done]. cbn [negb].
    intros H. apply bind_inv_Returns in H as ([] & w1 & Hal & H).
    destruct (allocate_inv _ _ _ _ _ Ho Hal) as (Hn & b' & cs' & Hobj1 & Hb' & Hlen & Hold).
    assert (objects w1 !! other = Some oo) as Hoo1
      by (by rewrite Hobj1, lookup_insert_ne).
    assert (objects w1 !! this = Some (mkSafePointer (Ptr b' 0) true n)) as Ht1
      by (by rewrite Hobj1, lookup_insert_eq).
    destruct (copy_elements_inv _ _ _ _ _ _ _ _ Hs Hn Hoo1 Ht1 Hb' Hlen H)
      as (b & off & Hp & Hbb & Hn0 & Hobj & Hcells & Hfr).
    eexists. split_and!; [by rewrite Hobj | done | done | by rewrite Hobj | |].
    + unfold compare. rewrite <- Hobj in Hoo1, Ht1. field_steps. rewrite Hp. simpl.
      rewrite bool_decide_eq_false_2; [done | congruence].
    + intros i Hi. destruct (Hcells i Hi) as [[c Hc] Heq].
      assert (cell_at (heap w) (Ptr b (off + i)) = Some c) as Hc0.
      { revert Hc. unfold cell_at. destruct (heap w1 !! b) as [cs|] eqn:Hb; [|done].
        by rewrite (Hold _ _ Hbb Hb). }
      unfold elem. rewrite Hp. cbn [ptr_ ptr_plus].
      replace (0 + i) with i by lia.
      rewrite Hc0. split_and!; [done | congruence |].
      rewrite Hfr by done. done.
Qed.

(** What [operator=] is between two distinct buffers, once the fields of
    both are known. *)
Lemma assign_run other this w o oo :
  this ≠ other → objects w !! this = Some o → objects w !! other = Some oo →
  assign sizeof_T other this w =
    match deallocate this w with
    | Returns _ w0 =>
        (allocate sizeof_T (size_ oo) this;;
         op ← get_ptr other;
         oe ← ptr_add op (size_ oo);
         p ← get_ptr this;
         std_copy op oe p) w0
    | Throws e w0 => Throws e w0
    | Undefined => Undefined
    end.
Proof.
  intros Hne Ho Hoo. unfold assign. rewrite decide_False by done.
  unfold bind at 1.
  rewrite (deallocate_run _ _ _ Ho). destruct (allocated_ o).
  - pose proof (keeps_objects_free (ptr_ o) w) as Hf.
    destruct (free (ptr_ o) w) as [[] w0| |]; [|done..].
    assert (objects (set_obj this empty_fields w0) !! other = Some oo)
      by (by rewrite lookup_set_obj_ne, Hf).
    by field_steps.
  - by field_steps.
Qed.

(** X5.  [operator=]: assigning a buffer to itself does nothing.  Between
    two distinct buffers, when it returns, the destination is allocated
    with the size of the source, owns a region other than the source's
    ([compare] is false) and holds, index by index, the elements of the
    source, which is left as it was. *)
Theorem assign_copies other this w o oo :
  0 < sizeof_T →
  objects w !! this = Some o → objects w !! other = Some oo →
  assign sizeof_T this this w = Returns tt w ∧
  (this ≠ other →
   ∀ w', assign sizeof_T other this w = Returns tt w' →
     ∃ o', objects w' !! this = Some o' ∧
           allocated_ o' = true ∧ size_ o' = size_ oo ∧
           objects w' !! other = Some oo ∧
           compare other this w' = Returns false w' ∧
           ∀ i, 0 ≤ i < size_ oo →
             is_Some (elem w oo i) ∧
             elem w' o' i = elem w oo i ∧
             elem w' oo i = elem w oo i).
Proof.
  intros Hs Ho Hoo. split; [unfold assign; by rewrite decide_True|].
  intros Hne w'. rewrite (assign_run _ _ _ _ _ Hne Ho Hoo).
  pose proof (deallocate_run _ _ _ Ho) as Hd.
  destruct (deallocate this w) as [[] w0| |] eqn:Hdw; [|done..].
  assert (objects w0 !! other = Some oo ∧ is_Some (objects w0 !! this) ∧
          ∀ b x, heap w0 !! b = Some x → heap w !! b = Some x)
    as (Hoo0 & [o0 Ho0] & Hheap0).
  { destruct (allocated_ o).
    - destruct (free (ptr_ o) w) as [[] w1| |] eqn:Hf; [|done..]. injection Hd as ->.
      pose proof (free_objects _ _ _ Hf) as Hobj.
      split_and!; [by rewrite lookup_set_obj_ne, Hobj | by rewrite lookup_set_obj_eq |].
      intros b x. simpl. unfold free in Hf. destruct (ptr_ o) as [|bo offo].
      + by injection Hf as <-.
      + destruct (heap w !! bo); [|done]. case_decide; [|done]. injection Hf as <-.
        simpl. rewrite lookup_delete. by case_decide.
    - injection Hd as <-. eauto. }
  intros H. apply bind_inv_Returns in H as ([] & w1 & Hal & H).
  destruct (allocate_inv _ _ _ _ _ Ho0 Hal) as (Hn & b' & cs' & Hobj1 & Hb' & Hlen & Hold).
  assert (objects w1 !! other = Some oo) as Hoo1
    by (by rewrite Hobj1, lookup_insert_ne).
  assert (objects w1 !! this = Some (mkSafePointer (Ptr b' 0) true (size_ oo))) as Ht1
    by (by rewrite Hobj1, lookup_insert_eq).
  destruct (copy_elements_inv _ _ _ _ _ _ _ _ Hs Hn Hoo1 Ht1 Hb' Hlen H)
    as (b & off & Hp & Hbb & Hn0 & Hobj & Hcells & Hfr).
  eexists. split_and!; [by rewrite Hobj | done | done | by rewrite Hobj | |].
  - unfold compare. rewrite <- Hobj in Hoo1, Ht1. field_steps. rewrite Hp. simpl.
    rewrite bool_decide_eq_false_2; [done | congruence].
  - intros i Hi. destruct (Hcells i Hi) as [[c Hc] Heq].
    assert (cell_at (heap w) (Ptr b (off + i)) = Some c) as Hc0.
    { revert Hc. unfold cell_at. destruct (heap w1 !! b) as [cs|] eqn:Hb; [|done].
      by rewrite (Hheap0 _ _ (Hold _ _ Hbb Hb)). }
    unfold elem. rewrite Hp. cbn [ptr_ ptr_plus].
    replace (0 + i) with i by lia.
    rewrite Hc0. split_and!; [done | congruence |].
    rewrite Hfr by done. done.
Qed.

(** X6.  Assigning from a buffer whose count is 0 (an empty buffer, or one
    after [clear(false)] or [set]) throws the invalid-argument error of
    [allocate(0)], and it does so after the destination has released its
    region: a destination that was allocated ends empty. *)
Theorem assign_from_empty_throws other this w o oo :
  this ≠ other →
  objects w !! this = Some o → objects w !! other = Some oo →
  size_ oo = 0 →
  (allocated_ o = true → can_free w (ptr_ o) = true →
   ∃ e w', assign sizeof_T other this w = Throws e w' ∧
           kind_of e = InvalidArgument ∧
           w' = set_obj this empty_fields (released (ptr_ o) w) ∧
           is_allocated this w' = Returns false w' ∧
           size this w' = Returns 0 w') ∧
  (allocated_ o = false →
   ∃ e, assign sizeof_T other this w = Throws e w ∧ kind_of e = InvalidArgument).
Proof.
  intros Hne Ho Hoo Hz. rewrite (assign_run _ _ _ _ _ Hne Ho Hoo), Hz. split.
  - intros Ha Hf. rewrite (deallocate_allocated _ _ _ Ho Ha Hf).
    rewrite (bind_Throws _ _ _ _ _ (allocate_zero _ _)).
    eexists _, _. split_and!; [done | done | done | |].
    + by erewrite is_allocated_run by solve_lookup.
    + by erewrite size_run by solve_lookup.
  - intros Ha. rewrite (deallocate_not_allocated _ _ _ Ho Ha).
    rewrite (bind_Throws _ _ _ _ _ (allocate_zero _ _)). by eexists.
Qed.

(** ** set_value and get_values *)

Lemma store_undefined p (c : option T) w :
  cell_at (heap w) p = None → store p c w = Undefined.
Proof.
  unfold store, cell_at. destruct p as [|b o]; [done|].
  destruct (heap w !! b) as [cs|]; [|done].
  case_decide as Ho.
  - intros Hc%lookup_ge_None. rewrite decide_False by lia. done.
  - intros _. rewrite decide_False by lia. done.
Qed.

(** X7.  [set_value(value, idx)] throws the not-allocated error, and
    changes nothing, on a buffer that is not marked allocated or whose
    pointer is null.  Otherwise it is the store [ptr_[idx] = value], with
    no check of [idx] against [size()]: it returns exactly when the
    region of [ptr_] has a cell at [idx], is undefined when it has none,
    and when it returns the element at [idx] is [value], every other
    element is as before and no field has changed. *)
Theorem set_value_contract v idx this w o :
  objects w !! this = Some o →
  (allocated_ o = false ∨ ptr_ o = nullptr →
   ∃ e, set_value v idx this w = Throws e w ∧ kind_of e = NotAllocated) ∧
  (allocated_ o = true → ptr_ o ≠ nullptr →
   (is_Some (elem w o idx) → ∃ w', set_value v idx this w = Returns tt w') ∧
   (elem w o idx = None → set_value v idx this w = Undefined) ∧
   (∀ w', set_value v idx this w = Returns tt w' →
      objects w' = objects w ∧
      elem w' o idx = Some (Some v) ∧
      ∀ j, j ≠ idx → elem w' o j = elem w o j)).
Proof.
  intros Ho. unfold set_value. field_steps. split.
  - intros Hna.
    exists (runtime_error "Cannot set value: memory is not allocated").
    split; [|done]. destruct Hna as [-> | ->]; [done|]. by rewrite orb_true_r.
  - intros Ha Hp. rewrite Ha. destruct (ptr_ o) as [|b off] eqn:Hpo; [done|].
    cbn [negb orb is_null]. unfold elem. rewrite Hpo. split_and!.
    + apply store_returns.
    + apply store_undefined.
    + intros w' (_ & Hobj & _ & Hst)%store_inv. split; [done|]. split.
      * rewrite Hst. by rewrite decide_True.
      * intros j Hj. rewrite Hst. rewrite decide_False; [done|].
        intros E. apply ptr_plus_inj in E; done.
Qed.

Lemma bind_ptr_add_ext {A} p k (f g : pointer → M A) w :
  (∀ e, f e w = g e w) →
  (e ← ptr_add p k; f e) w = (e ← ptr_add p k; g e) w.
Proof.
  intros H. unfold bind. destruct (ptr_add p k w) as [e w1| |] eqn:He; [|done..].
  apply ptr_add_inv in He as [-> _]. apply H.
Qed.

(** [get_values(dst)] with the fields read: [end()] is computed first. *)
Lemma get_values1_unfold dst this w o :
  objects w !! this = Some o →
  get_values1 dst this w =
    (e ← ptr_add (ptr_ o) (size_ o);
     if negb (allocated_ o) || is_null (ptr_ o) then
       throw (runtime_error "Cannot get values: memory is not allocated")
     else if is_null (ptr_ o) || is_null e || is_null dst then
       throw (invalid_argument "Source and destination pointers cannot be null")
     else
       (_ ← lift_option (ptr_diff e (ptr_ o));
        std_copy (ptr_ o) e dst)) w.
Proof.
  intros Ho. unfold get_values1, begin, end_, get_values. field_steps.
  apply bind_ptr_add_ext. intros e. by field_steps.
Qed.

(** X8.  [get_values(dst)] copies the whole buffer out.  When it returns,
    the buffer is allocated, [dst] is not null, [dst + i] holds the
    element [i] of the buffer for every [i < size()], each of which was a
    cell of the region, and neither the fields nor any cell outside
    [dst .. dst + size()) have changed.  On a buffer whose pointer is
    null and whose count is 0 (never allocated, deallocated, or after
    [clear(false)]) it throws the not-allocated error.  On an allocated
    buffer that holds [size()] cells of a live region it throws the
    invalid-argument error when [dst] is null, and returns when the
    destination has [size()] cells and does not start inside the
    buffer. *)
Theorem get_values1_contract dst this w o :
  objects w !! this = Some o →
  (ptr_ o = nullptr → size_ o = 0 →
   ∃ e, get_values1 dst this w = Throws e w ∧ kind_of e = NotAllocated) ∧
  (∀ w', get_values1 dst this w = Returns tt w' →
     allocated_ o = true ∧ ptr_ o ≠ nullptr ∧ dst ≠ nullptr ∧
     objects w' = objects w ∧
     (∀ i, 0 ≤ i < size_ o →
        is_Some (elem w o i) ∧
        cell_at (heap w') (ptr_plus dst i) = elem w o i) ∧
     (∀ q, (∀ i, 0 ≤ i < size_ o → q ≠ ptr_plus dst i) →
        cell_at (heap w') q = cell_at (heap w) q)) ∧
  (allocated_ o = true →
   ∀ b off cs,
     ptr_ o = Ptr b off → heap w !! b = Some cs →
     0 ≤ off → 0 ≤ size_ o → off + size_ o ≤ Z.of_nat (length cs) →
     (dst = nullptr →
      ∃ e, get_values1 dst this w = Throws e w ∧ kind_of e = InvalidArgument) ∧
     (dst ≠ nullptr →
      in_span (Ptr b off) (Ptr b (off + size_ o)) dst = false →
      (∀ i, 0 ≤ i < size_ o → is_Some (cell_at (heap w) (ptr_plus dst i))) →
      ∃ w', get_values1 dst this w = Returns tt w')).
Proof.
  intros Ho. rewrite (get_values1_unfold _ _ _ _ Ho). split_and!.
  - intros -> ->. unfold ptr_add, bind. rewrite decide_True by done.
    rewrite orb_true_r.
    by exists (runtime_error "Cannot get values: memory is not allocated").
  - intros w' H. apply bind_inv_Returns in H as (e & w1 & [-> Hadd]%ptr_add_inv & H).
    destruct (allocated_ o); [|done].
    destruct Hadd as [(Hp & _)|(b & off & cs & Hp & Hb & Hbound & ->)];
      rewrite Hp in H; [done|].
    destruct dst as [|db doff]; [done|].
    revert H. cbn [negb orb is_null ptr_diff]. rewrite decide_True by done.
    cbn [lift_option]. rewrite bind_ret.
    intros (n & Hn & Hn0 & _ & Hobj & _ & Hcells & Hfr)%std_copy_inv.
    simpl in Hn. rewrite decide_True in Hn by done. injection Hn as <-.
    replace (off + size_ o - off) with (size_ o) in * by lia.
    unfold elem. rewrite Hp. by split_and!.
  - intros Ha b off cs Hp Hb Hoff Hn Hlen. rewrite Ha, Hp.
    assert (ptr_add (Ptr b off) (size_ o) w = Returns (Ptr b (off + size_ o)) w) as Hadd.
    { unfold ptr_add. rewrite Hb. by rewrite decide_True by lia. }
    rewrite (bind_Returns _ _ _ _ _ Hadd). cbn [negb orb is_null]. split.
    + intros ->.
      by exists (invalid_argument "Source and destination pointers cannot be null").
    + intros Hd Hspan Hcells. destruct dst as [|db doff]; [done|].
      cbn [is_null ptr_diff]. rewrite decide_True by done.
      cbn [lift_option]. rewrite bind_ret.
      unfold std_copy. cbn [ptr_diff]. rewrite decide_True by done.
      cbn [lift_option]. rewrite bind_ret. rewrite decide_False by lia.
      rewrite Hspan. apply copy_loop_returns. intros i Hi.
      split; [|apply Hcells; lia].
      cbn [ptr_plus cell_at]. rewrite Hb, decide_True by lia.
      apply lookup_lt_is_Some. lia.
Qed.

(** X9.  Writing a source range into the buffer with
    [set_values(src_begin, src_end)] and reading the buffer back with
    [get_values(dst)] gives, in [dst + i], what [src_begin + i] held, for
    every index of the source range; the source range is no longer than
    [size()].  The count and the length of the source range fit in
    [size_t]. *)
Theorem set_values_get_values_round_trip src_begin src_end dst this w w1 w2 o n :
  objects w !! this = Some o → is_size_t (size_ o) →
  ptr_diff src_end src_begin = Some n → n < size_modulus →
  set_values2 src_begin src_end this w = Returns tt w1 →
  get_values1 dst this w1 = Returns tt w2 →
  0 ≤ n ≤ size_ o ∧
  ∀ i, 0 ≤ i < n →
    cell_at (heap w2) (ptr_plus dst i) = cell_at (heap w) (ptr_plus src_begin i).
Proof.
  intros Ho Hsz Hn Hfit Hset Hget.
  assert (objects w1 = objects w ∧ 0 ≤ n ≤ size_ o ∧
          ∀ i, 0 ≤ i < n →
            elem w1 o i = cell_at (heap w) (ptr_plus src_begin i))
    as (Hobj & Hle & Hin).
  { revert Hset. unfold set_values2, begin, set_values. field_steps.
    destruct (negb (allocated_ o) || is_null (ptr_ o)) eqn:Hna; [done|].
    destruct (is_null src_begin || is_null src_end || is_null (ptr_ o)); [done|].
    rewrite Hn. cbn [lift_option]. rewrite bind_ret.
    destruct (ptr_ o) as [|b off] eqn:Hp; [by rewrite orb_true_r in Hna|].
    cbn [ptr_diff]. rewrite decide_True by done. cbn [lift_option].
    rewrite bind_ret. field_steps. case_decide as Hcap; [done|].
    intros (n' & Hn' & Hn0 & _ & Hobj & _ & Hcells & _)%std_copy_inv.
    rewrite Hn in Hn'. injection Hn' as <-.
    revert Hcap. replace (off - off) with 0 by lia.
    unfold to_size_t. rewrite Z.mod_0_l by done. rewrite Z.sub_0_r.
    destruct Hsz as [Hlo Hhi].
    rewrite (Z.mod_small n), (Z.mod_small (size_ o)) by lia.
    intros Hcap. split; [done|]. split; [lia|].
    intros i Hi. unfold elem. rewrite Hp. apply Hcells. lia. }
  assert (objects w1 !! this = Some o) as Ho1 by (by rewrite Hobj).
  split; [done|]. intros i Hi.
  pose proof (get_values1_unfold dst this w1 o Ho1) as Hu. rewrite Hget in Hu.
  symmetry in Hu.
  apply bind_inv_Returns in Hu as (e & w3 & [-> Hadd]%ptr_add_inv & H).
  destruct (negb (allocated_ o) || is_null (ptr_ o)); [done|].
  destruct (is_null (ptr_ o) || is_null e || is_null dst); [done|].
  apply bind_inv_Returns in H as (d & w3 & Hd & H).
  destruct (ptr_diff e (ptr_ o)) as [d'|] eqn:Hde; [|done].
  simpl in Hd. injection Hd as -> ->.
  apply std_copy_inv in H as (n' & Hn' & _ & _ & _ & _ & Hcells & _).
  rewrite Hde in Hn'. injection Hn' as ->.
  assert (n' = size_ o) as ->.
  { destruct Hadd as [(? & ? & ->)|(b & off & cs & Hp & _ & _ & ->)].
    - lia.
    - rewrite Hp in Hde. simpl in Hde. rewrite decide_True in Hde by done.
      injection Hde as <-. lia. }
  destruct (Hcells i ltac:(lia)) as [_ ->]. by apply Hin.
Qed.

(** ** callocate *)

(** [calloc] always returns: a null pointer and an untouched heap, or the
    start of a block that was free, now holding zeros, for a product that
    fits in [size_t]. *)
Lemma calloc_cases num size w :
  calloc sizeof_T zero_T num size w = Returns nullptr (decided w) ∨
  ∃ b, fst (next_decision w) = Some b ∧ heap w !! b = None ∧
       num * size < size_modulus ∧
       calloc sizeof_T zero_T num size w =
         Returns (Ptr b 0)
           (place b (replicate (cells_of_bytes sizeof_T (num * size)) (Some zero_T))
              (decided w)).
Proof.
  unfold calloc. rewrite next_decision_decided.
  destruct (fst (next_decision w)) as [b|]; [|by left].
  rewrite heap_decided. destruct (heap w !! b) eqn:Hb; [by left|].
  case_decide; [|by left]. right. by exists b.
Qed.

(** What [deallocate] has done when it returns. *)
Lemma deallocate_inv this w w0 o :
  objects w !! this = Some o → deallocate this w = Returns tt w0 →
  ∃ o0, objects w0 = <[this := o0]> (objects w) ∧
        o0 = (if allocated_ o then empty_fields else o) ∧
        allocator w0 = allocator w ∧
        (allocated_ o = false → w0 = w) ∧
        ∀ b x, heap w0 !! b = Some x → heap w !! b = Some x.
Proof.
  intros Ho. rewrite (deallocate_run _ _ _ Ho). destruct (allocated_ o).
  - destruct (free (ptr_ o) w) as [[] w1| |] eqn:Hf; [|done..]. intros [= <-].
    exists empty_fields. simpl. rewrite (free_objects _ _ _ Hf).
    split_and!; [done | done | | done |].
    + unfold free in Hf. destruct (ptr_ o) as [|bo offo]; [by injection Hf as <-|].
      destruct (heap w !! bo); [|done]. case_decide; [|done]. by injection Hf as <-.
    + intros b x. unfold free in Hf. destruct (ptr_ o) as [|bo offo].
      * by injection Hf as <-.
      * destruct (heap w !! bo); [|done]. case_decide; [|done]. injection Hf as <-.
        simpl. rewrite lookup_delete. by case_decide.
  - intros [= <-]. exists o. split_and!; try done. by rewrite insert_id.
Qed.

(** [callocate] once the old region is gone. *)
Lemma callocate_tail num size this w o :
  objects w !! this = Some o →
  (p ← calloc sizeof_T zero_T num size;
   set_ptr this p;;
   if is_null p then throw (runtime_error "Memory allocation failed")
   else set_size this num;; set_allocated this true) w =
  match calloc sizeof_T zero_T num size w with
  | Returns p w1 =>
      if is_null p then
        Throws (runtime_error "Memory allocation failed")
          (set_obj this (mkSafePointer nullptr (allocated_ o) (size_ o)) w1)
      else Returns tt (set_obj this (mkSafePointer p true num) w1)
  | Throws e w1 => Throws e w1
  | Undefined => Undefined
  end.
Proof.
  intros Ho. unfold bind at 1.
  pose proof (keeps_objects_calloc num size w) as Hk.
  destruct (calloc sizeof_T zero_T num size w) as [p w1| |]; [|done..].
  assert (objects w1 !! this = Some o) by (by rewrite Hk).
  field_steps. destruct p; simpl; [done|]. by field_steps.
Qed.

Lemma callocate_run num size this w o :
  objects w !! this = Some o → num ≠ 0 → size ≠ 0 →
  callocate sizeof_T zero_T num size this w =
    (deallocate this;;
     p ← calloc sizeof_T zero_T num size;
     set_ptr this p;;
     if is_null p then throw (runtime_error "Memory allocation failed")
     else set_size this num;; set_allocated this true) w.
Proof.
  intros Ho Hn Hs. unfold callocate. rewrite decide_False by tauto. field_steps.
  destruct (allocated_ o) eqn:Ha; [done|].
  by rewrite (bind_Returns _ _ _ _ _ (deallocate_not_allocated _ _ _ Ho Ha)), bind_ret.
Qed.

(** What [callocate] has done when it returns. *)
Lemma callocate_inv num sz this w w' o :
  objects w !! this = Some o →
  callocate sizeof_T zero_T num sz this w = Returns tt w' →
  num ≠ 0 ∧ sz ≠ 0 ∧ num * sz < size_modulus ∧
  ∃ b, objects w' = <[this := mkSafePointer (Ptr b 0) true num]> (objects w) ∧
       heap w' !! b =
         Some (replicate (cells_of_bytes sizeof_T (num * sz)) (Some zero_T)).
Proof.
  intros Ho H.
  destruct (decide (num = 0 ∨ sz = 0)) as [Hz|Hz];
    [unfold callocate in H; by rewrite decide_True in H|].
  assert (num ≠ 0 ∧ sz ≠ 0) as [Hn Hs] by tauto.
  rewrite (callocate_run _ _ _ _ _ Ho Hn Hs) in H.
  apply bind_inv_Returns in H as ([] & w0 & Hd & H).
  destruct (deallocate_inv _ _ _ _ Ho Hd) as (o0 & Hobj0 & _ & _ & _ & _).
  assert (objects w0 !! this = Some o0) as Ho0 by (by rewrite Hobj0, lookup_insert_eq).
  rewrite (callocate_tail _ _ _ _ _ Ho0) in H.
  destruct (calloc_cases num sz w0) as [E|(b & _ & Hb & Hfit & E)];
    rewrite E in H; [done|].
  simpl in H. injection H as <-. split_and!; [done..|].
  exists b. simpl. rewrite objects_decided, Hobj0, insert_insert_eq.
  split; [done | by rewrite lookup_insert_eq].
Qed.

(** X10.  [callocate(num, size)] throws the invalid-argument error, and
    changes nothing, when [num] or [size] is 0.  When it returns, the
    product [num * size] fits in [size_t], the buffer is allocated and
    owns a fresh region of [num * size] bytes, all zero, and [size()] is
    [num], whatever [size] is: the count is the first argument, not the
    number of elements of the region.  It returns when the buffer holds
    nothing, the product fits and the allocator grants a free block. *)
Theorem callocate_contract num sz this w o :
  objects w !! this = Some o →
  (num = 0 ∨ sz = 0 →
   ∃ e, callocate sizeof_T zero_T num sz this w = Throws e w ∧
        kind_of e = InvalidArgument) ∧
  (∀ w', callocate sizeof_T zero_T num sz this w = Returns tt w' →
     num ≠ 0 ∧ sz ≠ 0 ∧ num * sz < size_modulus ∧
     ∃ b, objects w' = <[this := mkSafePointer (Ptr b 0) true num]> (objects w) ∧
          heap w' !! b =
            Some (replicate (cells_of_bytes sizeof_T (num * sz)) (Some zero_T)) ∧
          is_allocated this w' = Returns true w' ∧
          size this w' = Returns num w') ∧
  (num ≠ 0 → sz ≠ 0 → allocated_ o = false →
   ∀ b ds, allocator w = Some b :: ds → heap w !! b = None →
     num * sz < size_modulus →
     ∃ w', callocate sizeof_T zero_T num sz this w = Returns tt w').
Proof.
  intros Ho. split_and!.
  - intros Hz. unfold callocate. rewrite decide_True by done.
    by exists (invalid_argument "Cannot allocate 0 elements or size").
  - intros w' H.
    destruct (callocate_inv _ _ _ _ _ _ Ho H) as (Hn & Hs & Hfit & b & Hobj & Hb).
    split_and!; [done..|]. exists b. split_and!; [done | done | |].
    + by erewrite is_allocated_run by (by rewrite Hobj, lookup_insert_eq).
    + by erewrite size_run by (by rewrite Hobj, lookup_insert_eq).
  - intros Hn Hs Ha b ds Hal Hb Hfit.
    rewrite (callocate_run _ _ _ _ _ Ho Hn Hs).
    rewrite (bind_Returns _ _ _ _ _ (deallocate_not_allocated _ _ _ Ho Ha)).
    rewrite (callocate_tail _ _ _ _ _ Ho).
    unfold calloc, next_decision. rewrite Hal. simpl. rewrite Hb.
    rewrite decide_True by done. simpl. eauto.
Qed.

(** X11.  [callocate] gives no guarantee on failure: on an allocated
    buffer it releases the old region before it asks for the new one, so
    when the allocator refuses, or the product [num * size] does not fit
    in [size_t], it throws the allocation-failure error and leaves the
    buffer empty, its old elements gone. *)
Theorem callocate_failure_loses_buffer num sz this w o :
  objects w !! this = Some o → num ≠ 0 → sz ≠ 0 →
  allocated_ o = true → can_free w (ptr_ o) = true →
  fst (next_decision w) = None ∨ size_modulus ≤ num * sz →
  ∃ e w', callocate sizeof_T zero_T num sz this w = Throws e w' ∧
          kind_of e = AllocationFailure ∧
          objects w' = <[this := empty_fields]> (objects w) ∧
          heap w' = heap (released (ptr_ o) w) ∧
          is_allocated this w' = Returns false w' ∧
          size this w' = Returns 0 w'.
Proof.
  intros Ho Hn Hs Ha Hf Hfail.
  rewrite (callocate_run _ _ _ _ _ Ho Hn Hs).
  rewrite (bind_Returns _ _ _ _ _ (deallocate_allocated _ _ _ Ho Ha Hf)).
  set (w0 := set_obj this empty_fields (released (ptr_ o) w)).
  assert (objects w0 !! this = Some empty_fields) as Ho0 by apply lookup_set_obj_eq.
  assert (objects (released (ptr_ o) w) = objects w) as Hrel by (by destruct (ptr_ o)).
  assert (allocator (released (ptr_ o) w) = allocator w) as Hral by (by destruct (ptr_ o)).
  rewrite (callocate_tail _ _ _ _ _ Ho0).
  assert (calloc sizeof_T zero_T num sz w0 = Returns nullptr (decided w0)) as ->.
  { destruct (calloc_cases num sz w0) as [E|(b & Hd & _ & Hfit & _)]; [done|].
    destruct Hfail as [Hnone|Hbig]; [|lia].
    unfold next_decision in Hd, Hnone. simpl in Hd. rewrite Hral in Hd.
    destruct (allocator w); simpl in *; congruence. }
  simpl. eexists _, _. split_and!; [done | done | | | |].
  - simpl. rewrite objects_decided. simpl. by rewrite Hrel, insert_insert_eq.
  - simpl. by rewrite heap_decided.
  - by erewrite is_allocated_run by solve_lookup.
  - by erewrite size_run by solve_lookup.
Qed.

(** ** is_empty *)

Lemma is_empty_run this w o :
  objects w !! this = Some o →
  is_empty this w = Returns (allocated_ o && bool_decide (size_ o = 0)) w.
Proof. intros Ho. unfold is_empty. by field_steps. Qed.

(** X12.  [is_empty()] is [allocated_ && size_ == 0]: it is false once
    [deallocate], [allocate] or [callocate] has returned, so false for a
    buffer that holds nothing, and true on an allocated buffer once
    [clear(false)] or [set(p)], [p] not null, has returned. *)
Theorem is_empty_states this w o :
  objects w !! this = Some o →
  (∀ w', deallocate this w = Returns tt w' → is_empty this w' = Returns false w') ∧
  (∀ n w', allocate sizeof_T n this w = Returns tt w' →
     is_empty this w' = Returns false w') ∧
  (∀ num size w', callocate sizeof_T zero_T num size this w = Returns tt w' →
     is_empty this w' = Returns false w') ∧
  (allocated_ o = true →
   (∀ w', clear false this w = Returns tt w' → is_empty this w' = Returns true w') ∧
   (∀ p w', p ≠ nullptr → set p this w = Returns tt w' →
      is_empty this w' = Returns true w')).
Proof.
  intros Ho. split_and!.
  - intros w' Hd.
    destruct (deallocate_inv _ _ _ _ Ho Hd) as (o0 & Hobj0 & -> & _).
    erewrite is_empty_run by (by rewrite Hobj0, lookup_insert_eq).
    by destruct (allocated_ o) eqn:Ha; simpl; [|rewrite Ha].
  - intros n w' H.
    destruct (allocate_inv _ _ _ _ _ Ho H) as (Hn & b' & cs' & Hobj & _).
    erewrite is_empty_run by (by rewrite Hobj, lookup_insert_eq).
    simpl. by rewrite bool_decide_eq_false_2.
  - intros num size w' H.
    destruct (callocate_inv _ _ _ _ _ _ Ho H) as (Hn & _ & _ & b & Hobj & _).
    erewrite is_empty_run by (by rewrite Hobj, lookup_insert_eq).
    simpl. by rewrite bool_decide_eq_false_2.
  - intros Ha. split.
    + intros w'. rewrite (clear_false_run _ _ _ Ho). intros [= <-].
      erewrite is_empty_run by solve_lookup. by rewrite Ha.
    + intros p w' Hp. unfold set. field_steps. rewrite Ha.
      intros H. apply bind_inv_Returns in H as ([] & w0 & Hd & H).
      destruct (deallocate_inv _ _ _ _ Ho Hd) as (o0 & Hobj0 & -> & _).
      rewrite Ha in Hobj0.
      assert (objects w0 !! this = Some empty_fields) as Ho0
        by (by rewrite Hobj0, lookup_insert_eq).
      revert H. field_steps. intros [= <-].
      erewrite is_empty_run by solve_lookup. by destruct p.
Qed.

(** ** The destructor *)

(** X13.  The destructor after [clear(false)] frees nothing: [clear(false)]
    drops the pointer and keeps the flag, so [deallocate] calls [free]
    on a null pointer, and the region the buffer owned stays live with
    no buffer pointing to it.  Without the [clear(false)] the destructor
    returns the region to the allocator. *)
Theorem clear_then_destroy_leaks this w o b cs :
  objects w !! this = Some o → allocated_ o = true →
  ptr_ o = Ptr b 0 → heap w !! b = Some cs →
  (∃ w1 w2, clear false this w = Returns tt w1 ∧
            SafePointer_destroy this w1 = Returns tt w2 ∧
            objects w2 !! this = Some empty_fields ∧
            heap w2 = heap w ∧ heap w2 !! b = Some cs) ∧
  (∃ w2, SafePointer_destroy this w = Returns tt w2 ∧
         objects w2 !! this = Some empty_fields ∧
         heap w2 !! b = None).
Proof.
  intros Ho Ha Hp Hb. split.
  - eexists _, _. split; [by apply clear_false_run|]. rewrite Ha.
    unfold SafePointer_destroy.
    erewrite deallocate_allocated; [|solve_lookup|done|done].
    split_and!; [done | solve_lookup | done | done].
  - eexists. unfold SafePointer_destroy.
    erewrite deallocate_allocated; [|done|done|].
    + rewrite Hp. split_and!; [done | solve_lookup |]. simpl. apply lookup_delete_eq.
    + rewrite Hp. unfold can_free. by rewrite Hb.
Qed.

(** X14.  The constructor [SafePointer(n)] does not depend on the bits its
    storage held: [allocated_] starts false, so [allocate] takes a fresh
    region and never hands a stale pointer to [realloc].  With [n = 0]
    it throws the invalid-argument error; when the allocator grants a
    free block [b] the object is allocated with [size() == n] and owns
    [b]; when the allocator refuses it throws the allocation-failure
    error. *)
Theorem SafePointer_sized_contract n this w raw :
  objects w !! this = Some raw →
  (n = 0 → ∃ e w', SafePointer_sized sizeof_T n this w = Throws e w' ∧
                   kind_of e = InvalidArgument) ∧
  (n ≠ 0 → ∀ b ds, allocator w = Some b :: ds → heap w !! b = None →
     ∃ w', SafePointer_sized sizeof_T n this w = Returns tt w' ∧
           objects w' !! this = Some (mkSafePointer (Ptr b 0) true n) ∧
           heap w' !! b =
             Some (replicate (cells_of_bytes sizeof_T (to_size_t (n * sizeof_T))) None) ∧
           ∀ b', b' ≠ b → heap w' !! b' = heap w !! b') ∧
  (n ≠ 0 → fst (next_decision w) = None →
     ∃ e w', SafePointer_sized sizeof_T n this w = Throws e w' ∧
             kind_of e = AllocationFailure ∧ heap w' = heap w).
Proof.
  intros Hraw. unfold SafePointer_sized.
  rewrite (bind_Returns _ _ _ _ _ (SafePointer_default_run _ _ _ Hraw)).
  set (w0 := set_obj this _ w).
  assert (objects w0 !! this = Some (mkSafePointer nullptr false (size_ raw))) as Ho0
    by apply lookup_set_obj_eq.
  split_and!.
  - intros ->. rewrite allocate_zero. by eexists _, _.
  - intros Hn b ds Hal Hb. rewrite (allocate_fresh _ _ _ _ Ho0 eq_refl Hn).
    erewrite malloc_granted by done. simpl. eexists. split; [done|].
    split_and!; [solve_lookup | simpl; by rewrite lookup_insert_eq |].
    intros b' Hne. simpl. rewrite lookup_insert_ne by done. by rewrite heap_decided.
  - intros Hn Hnone. rewrite (allocate_fresh _ _ _ _ Ho0 eq_refl Hn).
    destruct (malloc_cases (to_size_t (n * sizeof_T)) w0) as [E|(b & Hd & _)].
    + rewrite E. simpl. eexists _, _. split_and!; [done | done |].
      simpl. by rewrite heap_decided.
    + unfold next_decision in Hd, Hnone. simpl in Hd.
      destruct (allocator w); simpl in *; congruence.
Qed.

End methods.

(** * The claims on the concrete instance *)

(** C1.  [sptr2.move(std::move(sptr1))] with [sptr1] holding five
    elements and [sptr2] three: the source is emptied and the destination
    takes over its pointer, and with it its cells, but [size()] of the
    destination is 0 afterwards, not 5: [move] never copies [size_]. *)
Theorem move_drops_size :
  size 1 two_buffers = Returns 5 two_buffers ∧
  get 1 two_buffers = Returns (Ptr 10 0) two_buffers ∧
  let w' := after (move 1 2) two_buffers in
  move 1 2 two_buffers = Returns tt w' ∧
  is_allocated 1 w' = Returns false w' ∧
  size 1 w' = Returns 0 w' ∧
  get 1 w' = Returns nullptr w' ∧
  is_allocated 2 w' = Returns true w' ∧
  get 2 w' = Returns (Ptr 10 0) w' ∧
  heap w' !! 10%positive = Some [Some 1; Some 2; Some 3; Some 4; Some 5] ∧
  size 2 w' = Returns 0 w'.
Proof. vm_compute. by repeat split. Qed.

(** C2.  [SafePointer<int> sptr;] built in a storage whose bits are stale:
    [is_allocated()] is false and [get()] is null, but [size()] is what
    the storage held, since [size_] has no initializer. *)
Theorem default_constructor_leaves_size :
  objects storage !! 1%positive = Some stale ∧
  let w' := after (SafePointer_default 1) storage in
  SafePointer_default 1 storage = Returns tt w' ∧
  is_allocated 1 w' = Returns false w' ∧
  get 1 w' = Returns nullptr w' ∧
  size 1 w' = Returns 12345 w'.
Proof. vm_compute. by repeat split. Qed.

(** C9.  [clone()] on a buffer of five elements, built without eliding
    the copy of [new_sptr]: the returned buffer is initialised member by
    member from the local, and the local is destroyed.  The call
    returns, and the clone it returns says it is allocated with five
    elements and a pointer other than the source's, but that pointer
    leads to the region the local has freed: the clone has no element,
    reading or writing through it is undefined, and so is its
    destructor, which frees the region a second time.  With the copy
    elided the same call gives a clone that owns its region and holds
    the elements of the source. *)
Theorem clone_without_elision_dangles :
  objects with_local !! 1%positive = Some five ∧
  elem with_local five 0 = Some (Some 1) ∧
  let w' := after (clone sizeof_int (Copied 3) 2 1) with_local in
  let o' := mkSafePointer (Ptr 11 0) true 5 in
  clone sizeof_int (Copied 3) 2 1 with_local = Returns tt w' ∧
  objects w' !! 2%positive = Some o' ∧
  objects w' !! 1%positive = Some five ∧
  is_allocated 2 w' = Returns true w' ∧
  size 2 w' = Returns 5 w' ∧
  compare 2 1 w' = Returns false w' ∧
  heap w' !! 11%positive = None ∧
  elem w' o' 0 = None ∧
  get_at 2 0 w' = Undefined ∧
  set_value 7 0 2 w' = Undefined ∧
  SafePointer_destroy 2 w' = Undefined ∧
  let v' := after (clone sizeof_int Elided 2 1) with_local in
  clone sizeof_int Elided 2 1 with_local = Returns tt v' ∧
  objects v' !! 2%positive = Some o' ∧
  heap v' !! 11%positive = Some [Some 1; Some 2; Some 3; Some 4; Some 5] ∧
  elem v' o' 0 = Some (Some 1).
Proof. vm_compute. by repeat split. Qed.

(** ** Instances of the general statements *)

Lemma clear_contract_witness :
  objects one_buffer !! 1%positive = Some five ∧
  (∃ w', clear false 1 one_buffer = Returns tt w' ∧
         is_allocated 1 w' = Returns true w' ∧
         size 1 w' = Returns 0 w' ∧
         get 1 w' = Returns nullptr w') ∧
  (∃ w', clear true 1 one_buffer = Returns tt w' ∧
         is_allocated 1 w' = Returns false w' ∧
         size 1 w' = Returns 0 w').
Proof.
  assert (objects one_buffer !! 1%positive = Some five) as Ho by reflexivity.
  destruct (clear_contract 1 one_buffer five Ho eq_refl) as [H1 H2].
  split; [exact Ho|]. split; [exact H1 | exact (H2 eq_refl)].
Defined.

Lemma set_resets_size_witness :
  objects one_buffer !! 1%positive = Some five ∧
  ∃ w', set (Ptr 50 0) 1 one_buffer = Returns tt w' ∧
        is_allocated 1 w' = Returns true w' ∧
        size 1 w' = Returns 0 w' ∧
        get 1 w' = Returns (Ptr 50 0) w'.
Proof.
  assert (objects one_buffer !! 1%positive = Some five) as Ho by reflexivity.
  split; [exact Ho|].
  apply (set_resets_size (Ptr 50 0) 1 one_buffer five Ho eq_refl eq_refl).
  discriminate.
Defined.

Lemma resize_zero_release_witness :
  objects one_buffer !! 1%positive = Some five ∧
  resize sizeof_int 0 1 one_buffer = deallocate 1 one_buffer ∧
  ∃ w', deallocate 1 one_buffer = Returns tt w' ∧
        is_allocated 1 w' = Returns false w' ∧
        size 1 w' = Returns 0 w'.
Proof.
  assert (objects one_buffer !! 1%positive = Some five) as Ho by reflexivity.
  destruct (resize_zero_release sizeof_int 1 one_buffer five Ho)
    as (H1 & _ & H3 & _).
  split; [exact Ho|]. split.
  - apply H1. discriminate.
  - apply H3; reflexivity.
Defined.

(** C3 fails after [clear(false)]: there [size()] is already 0, so
    [resize(0)] returns at once and [is_allocated()] stays true, while
    [deallocate()] makes it false. *)
Lemma resize_zero_after_clear_keeps_flag :
  cleared = after (clear false 1) one_buffer ∧
  resize sizeof_int 0 1 cleared = Returns tt cleared ∧
  is_allocated 1 cleared = Returns true cleared ∧
  is_allocated 1 (after (deallocate 1) cleared)
    = Returns false (after (deallocate 1) cleared) ∧
  resize sizeof_int 0 1 cleared ≠ deallocate 1 cleared.
Proof. vm_compute. by repeat split. Qed.

Lemma reallocate_failure_keeps_state_witness :
  objects out_of_memory !! 1%positive = Some five ∧
  reallocate sizeof_int 10 1 out_of_memory =
    Throws (runtime_error "Memory reallocation failed") (decided out_of_memory) ∧
  objects (decided out_of_memory) = objects out_of_memory ∧
  heap (decided out_of_memory) = heap out_of_memory.
Proof.
  assert (objects out_of_memory !! 1%positive = Some five) as Ho by reflexivity.
  destruct (reallocate_failure_keeps_state sizeof_int 10 1 out_of_memory five
              Ho eq_refl eq_refl) as [H1 H2]; [discriminate|].
  assert (reallocate sizeof_int 10 1 out_of_memory =
            Throws (runtime_error "Memory reallocation failed")
              (decided out_of_memory)) as Hthrow.
  { apply H2; reflexivity. }
  destruct (H1 _ _ Hthrow) as (_ & _ & Hobj & Hheap & _).
  split; [exact Ho|]. split; [exact Hthrow|]. split; [exact Hobj | exact Hheap].
Defined.

(** C5 fails when [n * sizeof(int)] wraps around to 0: [reallocate(2^62)]
    asks [realloc] for 0 bytes, which frees the region and returns null;
    the call throws the reallocation failure with the fields as they
    were, so that [ptr_] now points to a region that is gone and the five
    elements are lost. *)
Lemma reallocate_overflow_frees_region :
  objects one_buffer !! 1%positive = Some five ∧
  0 < 2 ^ 62 ∧ to_size_t (2 ^ 62 * sizeof_int) = 0 ∧
  let w' := after (reallocate sizeof_int (2 ^ 62) 1) one_buffer in
  reallocate sizeof_int (2 ^ 62) 1 one_buffer
    = Throws (runtime_error "Memory reallocation failed") w' ∧
  kind_of (runtime_error "Memory reallocation failed") = ReallocationFailure ∧
  objects w' !! 1%positive = Some five ∧
  heap one_buffer !! 10%positive = Some [Some 1; Some 2; Some 3; Some 4; Some 5] ∧
  heap w' !! 10%positive = None ∧
  elem one_buffer five 0 = Some (Some 1) ∧
  elem w' five 0 = None ∧
  heap w' ≠ heap one_buffer.
Proof. vm_compute. by repeat split. Qed.

Lemma allocate_contract_witness :
  let w := after (SafePointer_default 1) storage in
  objects w !! 1%positive = Some (mkSafePointer nullptr false 12345) ∧
  (∃ w', allocate sizeof_int 5 1 w = Returns tt w' ∧
         is_allocated 1 w' = Returns true w' ∧ size 1 w' = Returns 5 w') ∧
  (∃ e, allocate sizeof_int 0 1 w = Throws e w ∧ kind_of e = InvalidArgument).
Proof.
  intros w.
  assert (objects w !! 1%positive = Some (mkSafePointer nullptr false 12345))
    as Ho by reflexivity.
  destruct (allocate_contract sizeof_int 5 1 w _ Ho) as (H1 & H2 & _).
  destruct (allocate_contract sizeof_int 0 1 w _ Ho) as (_ & _ & H3).
  destruct (H2 eq_refl eq_refl 10%positive _ eq_refl eq_refl) as [w' Hw'].
  split; [exact Ho|]. split; [|exact H3].
  exists w'. split; [exact Hw' | exact (H1 eq_refl w' Hw')].
Defined.

Lemma set_values_checks_witness :
  objects two_buffers !! 1%positive = Some five ∧
  ∃ w', set_values (Ptr 11 0) (Ptr 11 3) (Ptr 10 1) 1 two_buffers = Returns tt w' ∧
        objects w' = objects two_buffers ∧
        ∀ i, 0 ≤ i < 3 - 0 →
          cell_at (heap w') (ptr_plus (Ptr 10 1) i) =
          cell_at (heap two_buffers) (ptr_plus (Ptr 11 0) i).
Proof.
  assert (objects two_buffers !! 1%positive = Some five) as Ho by reflexivity.
  destruct (set_values_checks (Ptr 11 0) (Ptr 11 3) (Ptr 10 1) 1 two_buffers five Ho)
    as (_ & _ & H).
  destruct (H eq_refl 10%positive 0 11%positive 0 3 1 eq_refl eq_refl eq_refl eq_refl)
    as (_ & _ & H3).
  destruct H3 as (_ & Hret & Hcells); [vm_compute; discriminate|].
  destruct Hret as [w' Hw']; [lia | reflexivity | |].
  { intros i Hi.
    assert (i = 0 ∨ i = 1 ∨ i = 2) as [-> | [-> | ->]] by lia;
      split; vm_compute; eauto. }
  split; [exact Ho|]. exists w'. split; [exact Hw' | exact (Hcells w' Hw')].
Defined.

(** C7 fails when [dst_begin] lies past the count: the first buffer has
    adopted an array of four elements, so its count is 0, and
    [set_values] of a source of two elements to the second element of the
    array finds a capacity of [0 - 1], wrapped around to [2^64 - 1].  The
    length 2 exceeds the count minus the offset, -1, and the call copies
    the two elements where the claim has it throw. *)
Lemma set_values_past_count_copies :
  let o := mkSafePointer (Ptr 20 0) true 0 in
  objects adopted !! 1%positive = Some o ∧
  ptr_diff (Ptr 20 1) (ptr_ o) = Some 1 ∧
  ptr_diff (Ptr 11 2) (Ptr 11 0) = Some 2 ∧
  2 > size_ o - 1 ∧
  to_size_t (size_ o - to_size_t 1) = 2 ^ 64 - 1 ∧
  let w' := after (set_values (Ptr 11 0) (Ptr 11 2) (Ptr 20 1) 1) adopted in
  set_values (Ptr 11 0) (Ptr 11 2) (Ptr 20 1) 1 adopted = Returns tt w' ∧
  heap adopted !! 20%positive = Some [Some 7; Some 8; Some 9; Some 10] ∧
  heap w' !! 20%positive = Some [Some 7; Some 9; Some 9; Some 10].
Proof. vm_compute. by repeat split. Qed.

Lemma resize_preserves_prefix_witness :
  objects one_buffer !! 1%positive = Some five ∧
  let w' := after (resize sizeof_int 10 1) one_buffer in
  resize sizeof_int 10 1 one_buffer = Returns tt w' ∧
  ∃ o', objects w' !! 1%positive = Some o' ∧
        size 1 w' = Returns 10 w' ∧
        ∀ i c, 0 ≤ i < Z.min (size_ five) 10 →
               elem one_buffer five i = Some c → elem w' o' i = Some c.
Proof.
  assert (objects one_buffer !! 1%positive = Some five) as Ho by reflexivity.
  destruct (resize_preserves_prefix sizeof_int 10 1 one_buffer five
              eq_refl Ho eq_refl) as [H1 _].
  split; [exact Ho|]. intros w'.
  assert (resize sizeof_int 10 1 one_buffer = Returns tt w') as Hw'
    by (vm_compute; reflexivity).
  split; [exact Hw'|].
  apply (H1 eq_refl); [discriminate | reflexivity | exact Hw'].
Defined.

(** C8 fails when [n * sizeof(int)] wraps around: [resize(2^62 + 1)] asks
    [realloc] for 4 bytes, which it grants; [size()] then is [2^62 + 1],
    and the element at index 1, below [min 5 n], is gone. *)
Lemma resize_overflow_loses_elements :
  objects one_buffer !! 1%positive = Some five ∧
  0 < huge ∧ huge ≠ 5 ∧ 1 < Z.min 5 huge ∧
  let w' := after (resize sizeof_int huge 1) one_buffer in
  let o' := mkSafePointer (Ptr 11 0) true huge in
  resize sizeof_int huge 1 one_buffer = Returns tt w' ∧
  objects w' !! 1%positive = Some o' ∧
  size 1 w' = Returns huge w' ∧
  elem one_buffer five 1 = Some (Some 2) ∧
  elem w' o' 1 = None.
Proof. vm_compute. by repeat split. Qed.

Lemma clone_contract_witness :
  objects one_buffer !! 1%positive = Some five ∧
  let w' := after (clone sizeof_int Elided 2 1) one_buffer in
  clone sizeof_int Elided 2 1 one_buffer = Returns tt w' ∧
  ∃ o', objects w' !! 2%positive = Some o' ∧
        objects w' !! 1%positive = Some five ∧
        compare 2 1 w' = Returns false w' ∧
        allocated_ o' = true ∧ size_ o' = 5 ∧
        ∀ i, 0 ≤ i < 5 →
          is_Some (elem one_buffer five i) ∧
          elem w' o' i = elem one_buffer five i ∧
          elem w' five i = elem one_buffer five i.
Proof.
  assert (objects one_buffer !! 1%positive = Some five) as Ho by reflexivity.
  split; [exact Ho|]. intros w'.
  assert (clone sizeof_int Elided 2 1 one_buffer = Returns tt w') as Hw'
    by (vm_compute; reflexivity).
  split; [exact Hw'|].
  destruct (clone_contract sizeof_int 2 1 one_buffer w' five eq_refl Ho eq_refl Hw')
    as (o' & H1 & H2 & H3 & H4 & H5 & H6 & _).
  exists o'. split_and!; [exact H1 | exact H2 | exact H3 | exact H4 | exact H5 | exact H6].
Defined.

(** ** The test suite on the model *)

(** With zeroed storages, and the copy of the value [clone] returns
    elided, every assertion of [unit()] holds. *)
Example unit_passes :
  unit_ Elided test_machine = Returns tt (after (unit_ Elided) test_machine).
Proof. vm_compute. reflexivity. Qed.

(** [test_move] reads [sptr2.size()] after the move: with stale bits in the
    storage of [sptr2] its last loop runs past the five elements. *)
Example test_move_on_stale_storage : test_move stale_machine = Undefined.
Proof. vm_compute. reflexivity. Qed.

(** The region detached by [clear(false)] is never returned to the
    allocator. *)
Example test_clear_leaks :
  heap (after test_clear test_machine) !! 10%positive
    = Some [None; None; None; None; None].
Proof. vm_compute. reflexivity. Qed.

(** ** The tests on any storage *)

(** [test_move] up to its last loop: the bits the storage of [sptr2] held
    in [size_] are the bound of that loop. *)
Lemma test_move_loop raw1 raw2 :
  test_move (machine_with raw1 raw2) =
    (for_loop (Z.to_nat (size_ raw2)) 0
       (λ i, v ← get_at 2 i; assert (bool_decide (v = i + 1)));;
     SafePointer_destroy 2;;
     SafePointer_destroy 1)
      (mkWorld (<[1%positive := zeroed]>
                  (<[2%positive := mkSafePointer (Ptr 10 0) true (size_ raw2)]> ∅))
         (<[10%positive := [Some 1; Some 2; Some 3; Some 4; Some 5]]> ∅)
         (map (λ n, Some (Pos.of_nat n)) (seq 11 19))).
Proof. destruct raw1, raw2. vm_compute. reflexivity. Qed.

(** X16.  [test_move] on the machine of the tests, with any bits in the
    storages of its two objects: it passes when the bits the storage of
    [sptr2] held in [size_] are a count of at most 5, and runs past the
    five elements, which is undefined, when they are more.  The bits of
    the storage of [sptr1], and the pointer and the flag in the storage
    of [sptr2], do not matter. *)
Theorem test_move_depends_on_storage raw1 raw2 :
  (size_ raw2 ≤ 5 → ∃ w', test_move (machine_with raw1 raw2) = Returns tt w') ∧
  (5 < size_ raw2 → test_move (machine_with raw1 raw2) = Undefined).
Proof.
  rewrite test_move_loop. split; intros H.
  - assert (Z.to_nat (size_ raw2) ≤ 5)%nat as Hk by lia.
    destruct (Z.to_nat (size_ raw2)) as [|[|[|[|[|[|k]]]]]];
      [vm_compute; eauto.. | lia].
  - assert (6 ≤ Z.to_nat (size_ raw2))%nat as Hk by lia.
    destruct (Z.to_nat (size_ raw2)) as [|[|[|[|[|[|k]]]]]]; [lia..|].
    vm_compute. reflexivity.
Qed.

(** X17.  The other seven tests on the machine of the tests, whatever
    bits the storages of their objects held.  Six of them pass: each
    reads a count only after [allocate] has written it.  [test_clone]
    passes when the copy of the value [clone] returns is elided; when it
    is not, whatever the storage of the local held, the clone points to
    the region the local freed and the test reads it, which is
    undefined. *)
Theorem tests_ignore_storage raw1 raw2 :
  (∃ w', test_allocate_and_deallocate (machine_with raw1 raw2) = Returns tt w') ∧
  (∃ w', test_resize (machine_with raw1 raw2) = Returns tt w') ∧
  (∃ w', test_fill (machine_with raw1 raw2) = Returns tt w') ∧
  (∃ w', test_copy (machine_with raw1 raw2) = Returns tt w') ∧
  (∃ w', test_swap (machine_with raw1 raw2) = Returns tt w') ∧
  (∃ w', test_clear (machine_with raw1 raw2) = Returns tt w') ∧
  (∃ w', test_clone Elided (machine_with raw1 raw2) = Returns tt w') ∧
  (∀ raw3, test_clone (Copied 3)
             (set_obj 3%positive raw3 (machine_with raw1 raw2)) = Undefined).
Proof.
  destruct raw1, raw2. split_and!; [vm_compute; eauto..|].
  intros [p3 a3 n3]. vm_compute. reflexivity.
Qed.

(** ** Instances of the statements on the other methods *)

Lemma fill_writes_all_witness :
  objects one_buffer !! 1%positive = Some five ∧
  ∃ w', fill 42 1 one_buffer = Returns tt w' ∧
        objects w' = objects one_buffer ∧
        ∀ i, 0 ≤ i < 5 → elem w' five i = Some (Some 42).
Proof.
  assert (objects one_buffer !! 1%positive = Some five) as Ho by reflexivity.
  destruct (fill_writes_all 42 1 one_buffer five Ho) as [H1 H2].
  destruct (H2 eq_refl 10%positive 0 [Some 1; Some 2; Some 3; Some 4; Some 5]
              eq_refl eq_refl) as [w' Hw']; [lia | simpl; lia | simpl; lia |].
  destruct (H1 w' Hw') as (Hobj & Hcells & _).
  split; [exact Ho|]. exists w'. split; [exact Hw'|]. split; [exact Hobj | exact Hcells].
Defined.

Lemma fill_throws_without_region_witness :
  objects cleared !! 1%positive = Some (mkSafePointer nullptr true 0) ∧
  (∃ e, fill_range (Ptr 10 0) (Ptr 10 5) 42 1 cleared = Throws e cleared ∧
        kind_of e = NotAllocated) ∧
  (∃ e, fill 42 1 cleared = Throws e cleared ∧ kind_of e = NotAllocated).
Proof.
  assert (objects cleared !! 1%positive = Some (mkSafePointer nullptr true 0))
    as Ho by reflexivity.
  destruct (fill_throws_without_region 42 1 cleared _ Ho (or_intror eq_refl))
    as [H1 H2].
  split; [exact Ho|]. split; [exact (H1 (Ptr 10 0) (Ptr 10 5)) | exact (H2 eq_refl eq_refl)].
Defined.

Lemma swap_exchanges_witness :
  objects two_buffers !! 1%positive = Some five ∧
  objects two_buffers !! 2%positive = Some three ∧
  ∃ w', swap 2 1 two_buffers = Returns tt w' ∧
        objects w' !! 1%positive = Some three ∧
        objects w' !! 2%positive = Some five ∧
        heap w' = heap two_buffers ∧
        swap 2 1 w' = Returns tt two_buffers.
Proof.
  assert (objects two_buffers !! 1%positive = Some five) as H1 by reflexivity.
  assert (objects two_buffers !! 2%positive = Some three) as H2 by reflexivity.
  destruct (swap_exchanges 2 1 two_buffers five three H1 H2)
    as (w' & Hw' & Ha & Hb & _ & Hh & _ & Hback & _).
  split; [exact H1|]. split; [exact H2|]. exists w'.
  split_and!; [exact Hw' | exact Ha | exact Hb | exact Hh | exact Hback].
Defined.

Lemma copy_contract_witness :
  objects two_buffers !! 2%positive = Some three ∧
  objects two_buffers !! 1%positive = Some five ∧
  let w' := after (copy sizeof_int 1 3 2) two_buffers in
  copy sizeof_int 1 3 2 two_buffers = Returns tt w' ∧
  ∃ o', objects w' !! 2%positive = Some o' ∧
        allocated_ o' = true ∧ size_ o' = 3 ∧
        objects w' !! 1%positive = Some five ∧
        compare 1 2 w' = Returns false w' ∧
        ∀ i, 0 ≤ i < 3 →
          is_Some (elem two_buffers five i) ∧
          elem w' o' i = elem two_buffers five i ∧
          elem w' five i = elem two_buffers five i.
Proof.
  assert (objects two_buffers !! 2%positive = Some three) as H2 by reflexivity.
  assert (objects two_buffers !! 1%positive = Some five) as H1 by reflexivity.
  split; [exact H2|]. split; [exact H1|]. intros w'.
  assert (copy sizeof_int 1 3 2 two_buffers = Returns tt w') as Hw'
    by (vm_compute; reflexivity).
  split; [exact Hw'|].
  destruct (copy_contract sizeof_int 1 3 2 two_buffers three five eq_refl) as [_ H];
    [discriminate | exact H2 | exact H1 |].
  exact (H w' Hw').
Defined.

Lemma assign_copies_witness :
  objects two_buffers !! 2%positive = Some three ∧
  objects two_buffers !! 1%positive = Some five ∧
  let w' := after (assign sizeof_int 1 2) two_buffers in
  assign sizeof_int 1 2 two_buffers = Returns tt w' ∧
  ∃ o', objects w' !! 2%positive = Some o' ∧
        allocated_ o' = true ∧ size_ o' = 5 ∧
        objects w' !! 1%positive = Some five ∧
        compare 1 2 w' = Returns false w' ∧
        ∀ i, 0 ≤ i < 5 →
          is_Some (elem two_buffers five i) ∧
          elem w' o' i = elem two_buffers five i ∧
          elem w' five i = elem two_buffers five i.
Proof.
  assert (objects two_buffers !! 2%positive = Some three) as H2 by reflexivity.
  assert (objects two_buffers !! 1%positive = Some five) as H1 by reflexivity.
  split; [exact H2|]. split; [exact H1|]. intros w'.
  assert (assign sizeof_int 1 2 two_buffers = Returns tt w') as Hw'
    by (vm_compute; reflexivity).
  split; [exact Hw'|].
  destruct (assign_copies sizeof_int 1 2 two_buffers three five eq_refl H2 H1)
    as [_ H].
  apply (H ltac:(discriminate) w' Hw').
Defined.

Lemma assign_from_empty_throws_witness :
  objects detached !! 1%positive = Some five ∧
  objects detached !! 2%positive = Some (mkSafePointer nullptr true 0) ∧
  ∃ e w', assign sizeof_int 2 1 detached = Throws e w' ∧
          kind_of e = InvalidArgument ∧
          is_allocated 1 w' = Returns false w' ∧
          size 1 w' = Returns 0 w'.
Proof.
  assert (objects detached !! 1%positive = Some five) as H1 by reflexivity.
  assert (objects detached !! 2%positive = Some (mkSafePointer nullptr true 0))
    as H2 by reflexivity.
  destruct (assign_from_empty_throws sizeof_int 2 1 detached _ _
              ltac:(discriminate) H1 H2 eq_refl) as [H _].
  destruct (H eq_refl eq_refl) as (e & w' & Hthrow & Hkind & _ & Ha & Hs).
  split; [exact H1|]. split; [exact H2|]. exists e, w'.
  split_and!; [exact Hthrow | exact Hkind | exact Ha | exact Hs].
Defined.

Lemma set_value_contract_witness :
  objects one_buffer !! 1%positive = Some five ∧
  (∃ w', set_value 42 2 1 one_buffer = Returns tt w' ∧
         elem w' five 2 = Some (Some 42) ∧
         ∀ j, j ≠ 2 → elem w' five j = elem one_buffer five j) ∧
  set_value 42 5 1 one_buffer = Undefined.
Proof.
  assert (objects one_buffer !! 1%positive = Some five) as Ho by reflexivity.
  destruct (set_value_contract 42 2 1 one_buffer five Ho) as [_ H].
  destruct (H eq_refl ltac:(discriminate)) as (Hret & _ & Hinv).
  destruct Hret as [w' Hw']; [vm_compute; eauto|].
  destruct (Hinv w' Hw') as (_ & Hidx & Hothers).
  destruct (set_value_contract 42 5 1 one_buffer five Ho) as [_ H'].
  destruct (H' eq_refl ltac:(discriminate)) as (_ & Hundef & _).
  split; [exact Ho|]. split.
  - exists w'. split; [exact Hw'|]. split; [exact Hidx | exact Hothers].
  - apply Hundef. reflexivity.
Defined.

Lemma get_values1_contract_witness :
  objects two_buffers !! 2%positive = Some three ∧
  ∃ w', get_values1 (Ptr 10 1) 2 two_buffers = Returns tt w' ∧
        objects w' = objects two_buffers ∧
        ∀ i, 0 ≤ i < 3 →
          is_Some (elem two_buffers three i) ∧
          cell_at (heap w') (ptr_plus (Ptr 10 1) i) = elem two_buffers three i.
Proof.
  assert (objects two_buffers !! 2%positive = Some three) as Ho by reflexivity.
  destruct (get_values1_contract (Ptr 10 1) 2 two_buffers three Ho)
    as (_ & Hinv & Hret).
  destruct (Hret eq_refl 11%positive 0 [Some 9; Some 9; Some 9] eq_refl eq_refl)
    as [_ Hret']; [lia | simpl; lia | simpl; lia |].
  destruct Hret' as [w' Hw']; [discriminate | reflexivity | |].
  { intros i Hi.
    assert (i = 0 ∨ i = 1 ∨ i = 2) as [-> | [-> | ->]] by (simpl in Hi; lia);
      vm_compute; eauto. }
  destruct (Hinv w' Hw') as (_ & _ & _ & Hobj & Hcells & _).
  split; [exact Ho|]. exists w'. split; [exact Hw'|]. split; [exact Hobj | exact Hcells].
Defined.

Lemma set_values_get_values_round_trip_witness :
  objects two_buffers !! 2%positive = Some three ∧
  let w1 := after (set_values2 (Ptr 10 0) (Ptr 10 2) 2) two_buffers in
  let w2 := after (get_values1 (Ptr 10 2) 2) w1 in
  set_values2 (Ptr 10 0) (Ptr 10 2) 2 two_buffers = Returns tt w1 ∧
  get_values1 (Ptr 10 2) 2 w1 = Returns tt w2 ∧
  ∀ i, 0 ≤ i < 2 →
    cell_at (heap w2) (ptr_plus (Ptr 10 2) i) =
    cell_at (heap two_buffers) (ptr_plus (Ptr 10 0) i).
Proof.
  assert (objects two_buffers !! 2%positive = Some three) as Ho by reflexivity.
  split; [exact Ho|]. intros w1 w2.
  assert (set_values2 (Ptr 10 0) (Ptr 10 2) 2 two_buffers = Returns tt w1) as H1
    by (vm_compute; reflexivity).
  assert (get_values1 (Ptr 10 2) 2 w1 = Returns tt w2) as H2
    by (vm_compute; reflexivity).
  split; [exact H1|]. split; [exact H2|].
  apply (set_values_get_values_round_trip (Ptr 10 0) (Ptr 10 2) (Ptr 10 2) 2
           two_buffers w1 w2 three 2 Ho); [| | | exact H1 | exact H2].
  - vm_compute. split; [discriminate | reflexivity].
  - reflexivity.
  - reflexivity.
Defined.

Lemma callocate_contract_witness :
  let w := after (SafePointer_default 1) storage in
  objects w !! 1%positive = Some (mkSafePointer nullptr false 12345) ∧
  (∃ e, callocate sizeof_int 0 5 0 1 w = Throws e w ∧ kind_of e = InvalidArgument) ∧
  ∃ w', callocate sizeof_int 0 5 1 1 w = Returns tt w' ∧
        (∃ b, objects w' =
                <[1%positive := mkSafePointer (Ptr b 0) true 5]> (objects w) ∧
              heap w' !! b = Some [Some 0]) ∧
        size 1 w' = Returns 5 w'.
Proof.
  intros w.
  assert (objects w !! 1%positive = Some (mkSafePointer nullptr false 12345))
    as Ho by reflexivity.
  destruct (callocate_contract sizeof_int 0 5 0 1 w _ Ho) as (Hzero & _ & _).
  destruct (callocate_contract sizeof_int 0 5 1 1 w _ Ho) as (_ & Hinv & Hret).
  destruct (Hret ltac:(discriminate) ltac:(discriminate) eq_refl
              10%positive _ eq_refl eq_refl eq_refl) as [w' Hw'].
  destruct (Hinv w' Hw') as (_ & _ & _ & b & Hobj & Hb & _ & Hsize).
  split; [exact Ho|]. split; [exact (Hzero (or_intror eq_refl))|].
  exists w'. split; [exact Hw'|]. split; [|exact Hsize].
  exists b. split; [exact Hobj | exact Hb].
Defined.

Lemma callocate_failure_loses_buffer_witness :
  objects out_of_memory !! 1%positive = Some five ∧
  ∃ e w', callocate sizeof_int 0 5 4 1 out_of_memory = Throws e w' ∧
          kind_of e = AllocationFailure ∧
          heap w' = ∅ ∧
          is_allocated 1 w' = Returns false w' ∧
          size 1 w' = Returns 0 w'.
Proof.
  assert (objects out_of_memory !! 1%positive = Some five) as Ho by reflexivity.
  destruct (callocate_failure_loses_buffer sizeof_int 0 5 4 1 out_of_memory five Ho
              ltac:(discriminate) ltac:(discriminate) eq_refl eq_refl
              (or_introl eq_refl))
    as (e & w' & Hthrow & Hkind & _ & Hheap & Ha & Hs).
  split; [exact Ho|]. exists e, w'.
  split_and!; [exact Hthrow | exact Hkind | | exact Ha | exact Hs].
  rewrite Hheap. reflexivity.
Defined.

Lemma is_empty_states_witness :
  objects one_buffer !! 1%positive = Some five ∧
  is_empty 1 (after (deallocate 1) one_buffer)
    = Returns false (after (deallocate 1) one_buffer) ∧
  is_empty 1 (after (clear false 1) one_buffer)
    = Returns true (after (clear false 1) one_buffer).
Proof.
  assert (objects one_buffer !! 1%positive = Some five) as Ho by reflexivity.
  destruct (is_empty_states sizeof_int 0 1 one_buffer five Ho)
    as (Hd & _ & _ & Hc).
  destruct (Hc eq_refl) as [Hclear _].
  split; [exact Ho|]. split.
  - apply Hd. reflexivity.
  - apply Hclear. reflexivity.
Defined.

Lemma clear_then_destroy_leaks_witness :
  objects one_buffer !! 1%positive = Some five ∧
  (∃ w1 w2, clear false 1 one_buffer = Returns tt w1 ∧
            SafePointer_destroy 1 w1 = Returns tt w2 ∧
            heap w2 !! 10%positive = Some [Some 1; Some 2; Some 3; Some 4; Some 5]) ∧
  (∃ w2, SafePointer_destroy 1 one_buffer = Returns tt w2 ∧
         heap w2 !! 10%positive = None).
Proof.
  assert (objects one_buffer !! 1%positive = Some five) as Ho by reflexivity.
  destruct (clear_then_destroy_leaks 1 one_buffer five 10%positive
              [Some 1; Some 2; Some 3; Some 4; Some 5] Ho eq_refl eq_refl eq_refl)
    as [(w1 & w2 & Hc & Hd & _ & _ & Hb) (w3 & Hd' & _ & Hb')].
  split; [exact Ho|]. split.
  - exists w1, w2. split; [exact Hc|]. split; [exact Hd | exact Hb].
  - exists w3. split; [exact Hd' | exact Hb'].
Defined.

Lemma SafePointer_sized_contract_witness :
  objects storage !! 1%positive = Some stale ∧
  (∃ e w', SafePointer_sized sizeof_int 0 1 storage = Throws e w' ∧
           kind_of e = InvalidArgument) ∧
  ∃ w', SafePointer_sized sizeof_int 5 1 storage = Returns tt w' ∧
        objects w' !! 1%positive = Some five.
Proof.
  assert (objects storage !! 1%positive = Some stale) as Ho by reflexivity.
  destruct (SafePointer_sized_contract sizeof_int 0 1 storage stale Ho)
    as (Hzero & _ & _).
  destruct (SafePointer_sized_contract sizeof_int 5 1 storage stale Ho)
    as (_ & Hret & _).
  destruct (Hret ltac:(discriminate) 10%positive _ eq_refl eq_refl)
    as (w' & Hw' & Hobj & _).
  split; [exact Ho|]. split; [exact (Hzero eq_refl)|].
  exists w'. split; [exact Hw' | exact Hobj].
Defined.

Lemma invoke_keeps_consistent_witness :
  all_consistent two_buffers ∧
  leaves all_consistent (invoke sizeof_int 0 (Move 1) 2 two_buffers).
Proof.
  assert (all_consistent two_buffers) as Hw.
  { assert (objects two_buffers = <[1%positive := five]> (<[2%positive := three]> ∅))
      as Heq by (vm_compute; reflexivity).
    intros a o Ho Ha. rewrite Heq in Ho.
    apply lookup_insert_Some in Ho as [[_ <-]|[_ Ho]]; [discriminate|].
    apply lookup_insert_Some in Ho as [[_ <-]|[_ Ho]]; [discriminate|].
    by rewrite lookup_empty in Ho. }
  split; [exact Hw|].
  apply (invoke_keeps_consistent sizeof_int 0 (Move 1) 2 two_buffers).
  - vm_compute. eauto.
  - intros other [= <-]. vm_compute. eauto.
  - exact Hw.
Defined.

Lemma test_move_depends_on_storage_witness :
  (∃ w', test_move (machine_with zeroed zeroed) = Returns tt w') ∧
  test_move (machine_with stale stale) = Undefined.
Proof.
  destruct (test_move_depends_on_storage zeroed zeroed) as [H1 _].
  destruct (test_move_depends_on_storage stale stale) as [_ H2].
  split; [apply H1; simpl; lia | apply H2; simpl; lia].
Defined.
